(** * Language-model playground: model registry, training-argument parser,
      masked cross-entropy loss

    Shallow embedding of
    - [lmp/model/__init__.py]  (the [ALL_MODELS] list and the [MODEL_OPTS] dict),
    - [lmp/model/_base.py]     ([BaseModel.train_parser]),
    - the loss exercised by [test/lmp/util/metric/test_cross_entropy_loss.py].

    Part I holds the definitions, Part II the theorems about them. *)

From Stdlib Require Import ZArith QArith Ascii String.
From stdpp Require Import gmap strings list fin_maps.

Local Open Scope string_scope.
Local Open Scope list_scope.

(* ===================================================================== *)
(** * Part I: definitions                                                 *)
(* ===================================================================== *)

(** ** [lmp.model]: the registry of model classes *)

Module Registry.

(** The six classes re-imported by [lmp/model/__init__.py].  Python compares
    classes by identity, so an enumeration is their faithful image. *)
Inductive model_class : Set :=
  | GRUModel
  | LSTMModel
  | RNNModel
  | ResGRUModel
  | ResRNNModel
  | ResLSTMModel.

#[global] Instance model_class_eq_dec : EqDecision model_class.
Proof. solve_decision. Defined.

(** [ALL_MODELS], in the order of the source list. *)
Definition ALL_MODELS : list model_class :=
  [GRUModel; LSTMModel; RNNModel; ResGRUModel; ResRNNModel; ResLSTMModel].

Section with_model_name.

(** The class attribute [model_name] of each class is set in the modules
    [_gru.py], [_lstm.py], ... which define the classes; the registry code
    only reads it. *)
Variable model_name : model_class → string.

(** [{m.model_name: m for m in ms}]: one [d[key] = value] store per element,
    from left to right, a later store replacing an earlier one under the
    same key. *)
Definition dict_comprehension (ms : list model_class) : gmap string model_class :=
  foldl (λ d m, <[model_name m := m]> d) ∅ ms.

Definition MODEL_OPTS : gmap string model_class :=
  dict_comprehension ALL_MODELS.

End with_model_name.

(** A naming to run the registry on: pairwise distinct names, [RNNModel]
    being 'RNN' as in the module docstring. *)
Definition sample_model_name (m : model_class) : string :=
  match m with
  | GRUModel => "GRU"
  | LSTMModel => "LSTM"
  | RNNModel => "RNN"
  | ResGRUModel => "res-GRU"
  | ResRNNModel => "res-RNN"
  | ResLSTMModel => "res-LSTM"
  end.

End Registry.

(** ** Strings, as [argparse] inspects them *)

Module Str.

(** [s.startswith(p)] *)
Fixpoint startswith (s p : string) {struct p} : bool :=
  match p, s with
  | EmptyString, _ => true
  | String _ _, EmptyString => false
  | String c p', String d s' => Ascii.eqb c d && startswith s' p'
  end.

(** [c in s] for a one-character [c]. *)
Fixpoint contains (c : ascii) (s : string) : bool :=
  match s with
  | EmptyString => false
  | String d s' => Ascii.eqb c d || contains c s'
  end.

(** [s.split('=', 1)] when ['=' in s]: the text before the first ['='] and
    the text after it. *)
Fixpoint split_eq (s : string) : option (string * string) :=
  match s with
  | EmptyString => None
  | String c s' =>
      if Ascii.eqb c "=" then Some (EmptyString, s')
      else match split_eq s' with
           | Some (a, b) => Some (String c a, b)
           | None => None
           end
  end.

(** [s.lstrip('-')] *)
Fixpoint lstrip_dash (s : string) : string :=
  match s with
  | String c s' => if Ascii.eqb c "-" then lstrip_dash s' else s
  | EmptyString => EmptyString
  end.

(** [s.replace('-', '_')] *)
Fixpoint dash_to_underscore (s : string) : string :=
  match s with
  | String c s' =>
      String (if Ascii.eqb c "-" then "_"%char else c) (dash_to_underscore s')
  | EmptyString => EmptyString
  end.

(** [c] is one of the characters [0] to [9].  The pattern's [\d] matches the
    decimal digits of every script; those of the other scripts are not
    ASCII characters. *)
Definition is_digit (c : ascii) : bool :=
  (48 <=? nat_of_ascii c)%nat && (nat_of_ascii c <=? 57)%nat.

Fixpoint all_digits (s : string) : bool :=
  match s with
  | EmptyString => true
  | String c s' => is_digit c && all_digits s'
  end.

Fixpoint drop_digits (s : string) : string :=
  match s with
  | String c s' => if is_digit c then drop_digits s' else s
  | EmptyString => EmptyString
  end.

Definition nonempty (s : string) : bool :=
  match s with EmptyString => false | String _ _ => true end.

(** A regular expression's [$] also matches just before a newline that ends
    the string: drop that newline. *)
Fixpoint drop_final_newline (s : string) : string :=
  match s with
  | EmptyString => EmptyString
  | String c EmptyString => if Ascii.eqb c "010" then EmptyString else s
  | String c s' => String c (drop_final_newline s')
  end.

(** [re.match('^-\d+$|^-\d*\.\d+$', s)], argparse's [_negative_number_matcher]. *)
Definition negative_number_like (s : string) : bool :=
  match s with
  | String "-"%char r =>
      let r := drop_final_newline r in
      (nonempty r && all_digits r)
      || match drop_digits r with
         | String "."%char f => nonempty f && all_digits f
         | _ => false
         end
  | _ => false
  end.

End Str.

(** ** [argparse], as far as [train_parser] uses it

    The fragment of the standard library's [argparse] (as of CPython 3.11)
    that [BaseModel.train_parser] and a later [parse_args] exercise: a parser
    created by [ArgumentParser()], which holds the help action, and optional
    arguments with one value each ([action='store'], [nargs=None]).  Argument
    strings are byte strings. *)

Module Argparse.

(** The values of a namespace attribute: [None], an [int], a [float], a
    [str], and the empty list (see [get_values]). *)
Inductive value (F : Type) : Type :=
  | VNone
  | VInt (z : Z)
  | VFloat (f : F)
  | VStr (s : string)
  | VEmptyList.
Arguments VNone {F}.
Arguments VEmptyList {F}.
Arguments VInt {F} z.
Arguments VFloat {F} f.
Arguments VStr {F} s.

(** The [type=] keyword of [add_argument]. *)
Inductive arg_type : Set := TInt | TFloat | TStr.

Inductive action_kind : Set :=
  | Store   (* the default action: one value, converted and stored *)
  | Help.   (* [-h]/[--help]: print the help and exit *)

(** An action of the parser.  [default = None] stands for [SUPPRESS] (no
    attribute is set), [Some VNone] for Python's [None]. *)
Record Action (F : Type) : Type := mkAction {
  option_strings : list string;
  dest : string;
  kind : action_kind;
  required : bool;
  type_ : arg_type;
  default : option (value F);
  choices : option (list string);
  help : string
}.
Arguments mkAction {F}.
Arguments option_strings {F}.
Arguments dest {F}.
Arguments kind {F}.
Arguments required {F}.
Arguments type_ {F}.
Arguments default {F}.
Arguments choices {F}.
Arguments help {F}.

(** What [parse_args] ends in: a namespace, or [SystemExit] (raised by
    [parser.error] with status 2 and by the help action with status 0). *)
Inductive outcome (F : Type) : Type :=
  | Parsed (ns : gmap string (value F))
  | SystemExit.
Arguments Parsed {F} ns.
Arguments SystemExit {F}.

(** How [_parse_known_args] reads one argument string. *)
Inductive arg_class (F : Type) : Type :=
  | Positional                                          (* pattern ['A'] *)
  | Optional (a : Action F) (explicit_arg : option string)
  | Ambiguous                                           (* several abbreviations *)
  | Unrecognized                                        (* pattern ['O'], no action *)
  | DoubleDash.                                         (* the string ['--'] *)
Arguments Positional {F}.
Arguments Optional {F} a explicit_arg.
Arguments Ambiguous {F}.
Arguments Unrecognized {F}.
Arguments DoubleDash {F}.

(** [add_argument] raises [ArgumentError] on an option string that is
    already registered ([conflict_handler='error']). *)
Inductive add_result (A : Type) : Type :=
  | Added (x : A)
  | ArgumentError (option_string : string).
Arguments Added {A} x.
Arguments ArgumentError {A} option_string.

Definition bind_add {A B : Type} (r : add_result A) (k : A → add_result B) : add_result B :=
  match r with
  | Added x => k x
  | ArgumentError o => ArgumentError o
  end.

Notation "x ←+ r ;; k" := (bind_add r (λ x, k))
  (at level 100, r at next level, right associativity).

Section with_builtins.

(** Python's [float] objects, and the builtins [int] and [float] applied to
    a string ([None] when they raise [ValueError]). *)
Context {F : Type}.
Variable py_int : string → option Z.
Variable py_float : string → option F.

(** The parser: its [_actions], in registration order.  Its settings are
    those of [ArgumentParser()]: [conflict_handler='error'],
    [prefix_chars='-'], [argument_default=None]. *)
Definition Parser : Type := list (Action F).

(** [ArgumentParser()]: [add_help=True] registers the help action. *)
Definition help_action : Action F :=
  mkAction ["-h"; "--help"] "help" Help false TStr None None
           "show this help message and exit".

Definition ArgumentParser : Parser := [help_action].

(** The keys of [_option_string_actions]. *)
Definition registered_option_strings (p : Parser) : list string :=
  p ≫= option_strings.

(** [_option_string_actions[o]] *)
Definition option_string_action (p : Parser) (o : string) : option (Action F) :=
  head (filter (λ a, o ∈ option_strings a) p).

(** [parser.add_argument(o, choices=.., default=.., help=.., required=..,
    type=..)] for one long option string [o]; the destination is [o] without
    its leading dashes, dashes inside turned into underscores.  An argument
    group adds to the parser it belongs to. *)
Definition add_argument (p : Parser) (o : string)
    (choices : option (list string)) (default : value F) (help : string)
    (required : bool) (type_ : arg_type) : add_result Parser :=
  if bool_decide (o ∈ registered_option_strings p) then ArgumentError o
  else Added (p ++ [mkAction [o] (Str.dash_to_underscore (Str.lstrip_dash o))
                             Store required type_ (Some default) choices help]).

(** *** Reading one argument string *)

(** [_get_option_tuples]: the registered option strings an unregistered
    argument string may abbreviate, each with the explicit argument it would
    carry. *)
Definition get_option_tuples (p : Parser) (s : string)
    : list (Action F * option string) :=
  match s with
  | String "-"%char (String "-"%char _) =>
      let '(option_prefix, explicit_arg) :=
        match Str.split_eq s with
        | Some (o, e) => (o, Some e)
        | None => (s, None)
        end in
      omap (λ o, if Str.startswith o option_prefix
                 then (λ a, (a, explicit_arg)) <$> option_string_action p o
                 else None)
           (registered_option_strings p)
  | String "-"%char (String c rest) =>
      let short_option_prefix := String "-"%char (String c EmptyString) in
      omap (λ o, if bool_decide (o = short_option_prefix)
                 then (λ a, (a, Some rest)) <$> option_string_action p o
                 else if Str.startswith o s
                 then (λ a, (a, None)) <$> option_string_action p o
                 else None)
           (registered_option_strings p)
  | _ => []
  end.

Definition has_negative_number_optionals (p : Parser) : bool :=
  existsb Str.negative_number_like (registered_option_strings p).

(** [_parse_optional] *)
Definition parse_optional (p : Parser) (s : string) : arg_class F :=
  match s with
  | EmptyString => Positional
  | String c _ =>
      if negb (Ascii.eqb c "-") then Positional
      else match option_string_action p s with
      | Some a => Optional a None
      | None =>
          if (String.length s =? 1)%nat then Positional
          else
            match
              match Str.split_eq s with
              | Some (o, e) => (λ a, (a, e)) <$> option_string_action p o
              | None => None
              end
            with
            | Some (a, e) => Optional a (Some e)
            | None =>
                match get_option_tuples p s with
                | _ :: _ :: _ => Ambiguous
                | [(a, e)] => Optional a e
                | [] =>
                    if Str.negative_number_like s
                       && negb (has_negative_number_optionals p)
                    then Positional
                    else if Str.contains " " s then Positional
                    else Unrecognized
                end
            end
      end
  end.

(** The pattern letter of one argument string: ['--'] is looked at first. *)
Definition classify (p : Parser) (s : string) : arg_class F :=
  if bool_decide (s = "--") then DoubleDash else parse_optional p s.

(** *** Converting and storing a value *)

(** [_get_value]: the [type] function applied to the argument string. *)
Definition get_value (t : arg_type) (s : string) : option (value F) :=
  match t with
  | TInt => VInt <$> py_int s
  | TFloat => VFloat <$> py_float s
  | TStr => Some (VStr s)
  end.

(** [_check_value]: [value in action.choices], the choices being strings. *)
Definition check_value (a : Action F) (v : value F) : bool :=
  match choices a with
  | None => true
  | Some cs => match v with
               | VStr s => bool_decide (s ∈ cs)
               | _ => false
               end
  end.

(** [_get_values] for [nargs=None].  It first removes ['--'] from the
    argument strings: an explicit argument ['--'] (as in [--ver=--]) leaves
    none, and the value is then the empty list, neither converted nor
    checked.  Any other string is converted, then checked against the
    choices. *)
Definition get_values (a : Action F) (s : string) : option (value F) :=
  if bool_decide (s = "--") then Some VEmptyList
  else match get_value (type_ a) s with
       | Some v => if check_value a v then Some v else None
       | None => None
       end.

(** The namespace before any argument is read: every action's default,
    unless suppressed or already set. *)
Definition initial_namespace (p : Parser) : gmap string (value F) :=
  foldl (λ ns a, match default a with
                 | Some v => match ns !! dest a with
                             | None => <[dest a := v]> ns
                             | Some _ => ns
                             end
                 | None => ns
                 end) ∅ p.

(** The required actions that were not seen.  Actions are told apart by
    their destination. *)
Definition missing_required (p : Parser) (seen : gset string) : list (Action F) :=
  filter (λ a, required a = true ∧ dest a ∉ seen) p.

(** *** The parsing loop *)

(** [consume_optional], repeated over the argument strings.  No positional
    argument is registered, so an argument string that is not an option's
    value ends among the extras, which [parse_args] refuses. *)
Fixpoint consume (p : Parser) (args : list string)
    (ns : gmap string (value F)) (seen : gset string) : outcome F :=
  match args with
  | [] =>
      match missing_required p seen with
      | [] => Parsed ns
      | _ :: _ => SystemExit
      end
  | s :: rest =>
      match classify p s with
      | Optional a explicit_arg =>
          match kind a with
          | Help => SystemExit
          | Store =>
              match explicit_arg with
              | Some v =>
                  match get_values a v with
                  | Some x => consume p rest (<[dest a := x]> ns) ({[dest a]} ∪ seen)
                  | None => SystemExit
                  end
              | None =>
                  match rest with
                  | v :: rest' =>
                      match classify p v with
                      | Positional =>
                          match get_values a v with
                          | Some x =>
                              consume p rest' (<[dest a := x]> ns) ({[dest a]} ∪ seen)
                          | None => SystemExit
                          end
                      | _ => SystemExit
                      end
                  | [] => SystemExit
                  end
              end
          end
      | _ => SystemExit
      end
  end.

Definition parse_args (p : Parser) (args : list string) : outcome F :=
  consume p args (initial_namespace p) ∅.

(** The argument string [s] names the argument with destination [d]: it is
    read as one of its option strings, in full, abbreviated, or with a value
    attached. *)
Definition names_dest (p : Parser) (s d : string) : Prop :=
  ∃ a explicit_arg, classify p s = Optional a explicit_arg ∧ dest a = d.

End with_builtins.

End Argparse.

(** ** [lmp.model.BaseModel.train_parser] *)

Module BaseModel.

Import Argparse.

Section train_parser.

Context {F : Type}.

(** [lmp.dset.DSET_OPTS.keys()]: the names of the available datasets, defined
    in [lmp.dset]. *)
Variable DSET_OPTS_keys : list string.

(** The body of [train_parser].  Its first statement checks that [parser]
    is an [argparse.ArgumentParser], which the type says here; the argument
    group it then opens adds to [parser] itself. *)
Definition train_parser (parser : @Parser F) : add_result (@Parser F) :=
  let group := parser in
  (* Required arguments. *)
  group ←+ add_argument group "--batch_size" None VNone
      "Mini-batch size." true TInt ;;
  group ←+ add_argument group "--beta1" None VNone
      "First beta coefficient of AdamW optimizer." true TFloat ;;
  group ←+ add_argument group "--beta2" None VNone
      "Second beta coefficient of AdamW optimizer." true TFloat ;;
  group ←+ add_argument group "--ckpt_step" None VNone
      "Checkpoint save interval." true TInt ;;
  group ←+ add_argument group "--dset_name" (Some DSET_OPTS_keys) VNone
      "Name of the dataset which will be used to train language model." true TStr ;;
  group ←+ add_argument group "--eps" None VNone
      "Denominator smooth term of AdamW optimizer." true TFloat ;;
  group ←+ add_argument group "--exp_name" None VNone
      "Name of the language model training experiment." true TStr ;;
  group ←+ add_argument group "--log_step" None VNone
      "Performance log interval." true TInt ;;
  group ←+ add_argument group "--lr" None VNone
      "Learning rate." true TFloat ;;
  group ←+ add_argument group "--max_norm" None VNone
      "Gradient max-norm constraint." true TFloat ;;
  group ←+ add_argument group "--max_seq_len" None VNone
      "Maximum sequence length constraint. Set to `-1` to allow arbitrary token sequence length."
      true TInt ;;
  group ←+ add_argument group "--n_epoch" None VNone
      "Number of training epochs." true TInt ;;
  group ←+ add_argument group "--tknzr_exp_name" None VNone
      "Name of the pre-trained tokenizer experiment." true TStr ;;
  group ←+ add_argument group "--ver" None VNone
      "Version of the dataset." true TStr ;;
  group ←+ add_argument group "--wd" None VNone
      "Weight decay coefficient of AdamW optimizer." true TFloat ;;
  (* Optional arguments. *)
  add_argument group "--seed" None (VInt 42) "Random seed." false TInt.

(** The parser of the docstring's example: a fresh [ArgumentParser()] handed
    to [train_parser].  Should [train_parser] raise, no parser is left. *)
Definition trained_parser : @Parser F :=
  match train_parser ArgumentParser with
  | Added p => p
  | ArgumentError _ => []
  end.

(** The destinations of the fifteen required arguments. *)
Definition required_dests : list string :=
  ["batch_size"; "beta1"; "beta2"; "ckpt_step"; "dset_name"; "eps";
   "exp_name"; "log_step"; "lr"; "max_norm"; "max_seq_len"; "n_epoch";
   "tknzr_exp_name"; "ver"; "wd"].

End train_parser.

(** The [type=] each required argument is declared with. *)
Definition declared_type (d : string) : arg_type :=
  if bool_decide (d ∈ ["batch_size"; "ckpt_step"; "log_step"; "max_seq_len"; "n_epoch"])
  then TInt
  else if bool_decide (d ∈ ["beta1"; "beta2"; "eps"; "lr"; "max_norm"; "wd"])
  then TFloat
  else TStr.

(** The argument list that supplies each [(dest, value)] of [pairs] the way
    the docstring does: the option string [--dest], then [value]. *)
Definition argv_of (pairs : list (string * string)) : list string :=
  pairs ≫= λ '(d, v), ["--" +:+ d; v].

(** The value such a list supplies for [d]: that of the last occurrence. *)
Definition supplied (pairs : list (string * string)) (d : string) : option string :=
  snd <$> last (filter (λ dv, dv.1 = d) pairs).

Section parsing.

Context {F : Type}.
Variable py_int : string → option Z.
Variable py_float : string → option F.
Variable DSET_OPTS_keys : list string.

(** A value that may follow the option string of the required argument
    [d]: argparse reads it as an argument (not as an option string), its
    declared type converts it, and for [dset_name] it is one of the
    choices. *)
Definition acceptable (d v : string) : Prop :=
  classify (@trained_parser F DSET_OPTS_keys) v = Positional
  ∧ is_Some (get_value py_int py_float (declared_type d) v)
  ∧ (d = "dset_name" → v ∈ DSET_OPTS_keys).

(** The attributes [pairs] sets, from left to right. *)
Definition store_pairs (ns : gmap string (value F)) (pairs : list (string * string))
    : gmap string (value F) :=
  foldl (λ ns dv, match get_value py_int py_float (declared_type dv.1) dv.2 with
                  | Some x => <[dv.1 := x]> ns
                  | None => ns
                  end) ns pairs.

End parsing.

(** *** The docstring's example *)

(** The argument list of the example, the values for [--dset_name],
    [--batch_size] and [--exp_name] left open. *)
Definition docstring_pairs_with (dset_name batch_size exp_name : string)
    : list (string * string) :=
  [ ("batch_size", batch_size); ("beta1", "0.9"); ("beta2", "0.99");
    ("ckpt_step", "1000"); ("dset_name", dset_name); ("eps", "1e-8");
    ("exp_name", exp_name); ("log_step", "200"); ("lr", "1e-4");
    ("max_norm", "1"); ("max_seq_len", "-1"); ("n_epoch", "10");
    ("tknzr_exp_name", "my_tknzr_exp"); ("ver", "train"); ("wd", "1e-2") ].

Definition docstring_pairs : list (string * string) :=
  docstring_pairs_with "wiki-text-2" "32" "my_exp".

(** Dataset names for the example to run on; ['wiki-text-2'] is the one
    the docstring uses. *)
Definition example_DSET_OPTS_keys : list string :=
  ["chinese-poem"; "wiki-text-2"].

(** [int] and [float] on the numerals of the example, floats standing as the
    rationals their numerals denote. *)
Definition example_int (s : string) : option Z :=
  if bool_decide (s = "32") then Some 32%Z
  else if bool_decide (s = "1000") then Some 1000%Z
  else if bool_decide (s = "200") then Some 200%Z
  else if bool_decide (s = "-1") then Some (-1)%Z
  else if bool_decide (s = "10") then Some 10%Z
  else None.

Definition example_float (s : string) : option Q :=
  if bool_decide (s = "0.9") then Some 0.9%Q
  else if bool_decide (s = "0.99") then Some 0.99%Q
  else if bool_decide (s = "1e-8") then Some 1e-8%Q
  else if bool_decide (s = "1e-4") then Some 1e-4%Q
  else if bool_decide (s = "1") then Some 1%Q
  else if bool_decide (s = "1e-2") then Some 1e-2%Q
  else None.

End BaseModel.

(** ** [lmp.util.metric.cross_entropy_loss] *)

Module Metric.

Section with_floats.

(** Floating-point numbers and what the loss does with them: the natural
    logarithm, addition, division, negation, zero, the conversion of a count
    and the test [isnan].  Nothing is assumed of them, so NaN is whatever
    [is_nan] says it is. *)
Context {F : Type}.
Variable flog : F → F.
Variable fadd : F → F → F.
Variable fdiv : F → F → F.
Variable fneg : F → F.
Variable fzero : F.
Variable of_nat : nat → F.
Variable is_nan : F → bool.

(** [lmp.tknzr._base.PAD_TKID], the id of the padding token. *)
Variable PAD_TKID : nat.

(** [x1 + x2 + ... + xn], added from the left; zero for no term. *)
Definition fsum (xs : list F) : F :=
  match xs with
  | [] => fzero
  | x :: xs' => foldl fadd x xs'
  end.

(** Modelled from the spec: part of [cross_entropy_loss] below, which
    [lmp/util/metric.py] (not among the sources) defines.  The
    log-probabilities of the correct tokens of one sequence.  At every
    position the probability of the target is looked up in the distribution
    of that position; the positions whose target is the padding token are
    left out (the glossary's "masked at padding positions", the test's
    "Padding is masked"), and so are the positions whose probability is NaN
    (the test's "NaN is masked").  A position left out adds nothing to the
    sum, whatever its probability: the test's second sequence rules out a
    mask applied by multiplication, through which a NaN would pass.
    [tkids] has shape [(seq_len)], [pds] shape
    [(seq_len, vocab_size)]; [None] when the shapes differ or a target id is
    no index of its distribution. *)
Fixpoint masked_log_probs (tkids : list nat) (pds : list (list F))
    : option (list F) :=
  match tkids, pds with
  | [], [] => Some []
  | tk :: tkids', pd :: pds' =>
      rest ← masked_log_probs tkids' pds';
      p ← pd !! tk;
      if bool_decide (tk = PAD_TKID) || is_nan p then Some rest
      else Some (flog p :: rest)
  | _, _ => None
  end.

(** Modelled from the spec: part of [cross_entropy_loss] below.  The loss
    of one sequence: minus the mean of those log-probabilities. *)
Definition seq_cross_entropy_loss (tkids : list nat) (pds : list (list F))
    : option F :=
  lps ← masked_log_probs tkids pds;
  Some (fneg (fdiv (fsum lps) (of_nat (length lps)))).

(** Modelled from the spec: [lmp/util/metric.py] is not among the sources.
    The glossary has the cross-entropy loss as the "negative log-likelihood
    of the correct next token under the model's predicted distribution,
    masked at padding positions"; the test's expected value fixes the rest:
    per sequence, the sum of the logarithms divided by the number of
    positions kept, negated, a position being kept when its target is not the
    padding token and its probability is not NaN.  [batch_tkids] has shape
    [(batch_size, seq_len)], [batch_tkids_pd] shape
    [(batch_size, seq_len, vocab_size)], the result shape [(batch_size)]. *)
Fixpoint cross_entropy_loss (batch_tkids : list (list nat))
    (batch_tkids_pd : list (list (list F))) : option (list F) :=
  match batch_tkids, batch_tkids_pd with
  | [], [] => Some []
  | tkids :: batch_tkids', pds :: batch_tkids_pd' =>
      l ← seq_cross_entropy_loss tkids pds;
      ls ← cross_entropy_loss batch_tkids' batch_tkids_pd';
      Some (l :: ls)
  | _, _ => None
  end.

(** *** The loss in the words of the claim, position by position *)

(** The positions of a sequence whose target is not the padding token. *)
Definition unpadded_positions (tkids : list nat) : list nat :=
  filter (λ j, tkids !! j ≠ Some PAD_TKID) (seq 0 (length tkids)).

(** The probability the distribution at position [j] gives to the target of
    position [j]. *)
Definition correct_tk_prob (tkids : list nat) (pds : list (list F)) (j : nat)
    : F :=
  default fzero (tk ← tkids !! j; pd ← pds !! j; pd !! tk).

(** The unpadded positions at which that probability is not NaN. *)
Definition kept_positions (tkids : list nat) (pds : list (list F)) : list nat :=
  filter (λ j, is_nan (correct_tk_prob tkids pds j) = false)
         (unpadded_positions tkids).

(** The sum of the terms that [rxs] lists from the last to the first: the
    last term is added to the sum of those before it. *)
Fixpoint sum_before_last (rxs : list F) : F :=
  match rxs with
  | [] => fzero
  | [x] => x
  | x :: rxs' => fadd (sum_before_last rxs') x
  end.

(** The mean log-probability of the correct token over the positions [js],
    their terms added in the order of the positions. *)
Definition mean_log_prob (js : list nat) (tkids : list nat)
    (pds : list (list F)) : F :=
  fdiv (sum_before_last
          (reverse ((λ j, flog (correct_tk_prob tkids pds j)) <$> js)))
       (of_nat (length js)).

(** *** Shapes *)

(** [t.shape == (b, s)] *)
Definition shape2 {A : Type} (b s : nat) (t : list (list A)) : Prop :=
  length t = b ∧ Forall (λ row, length row = s) t.

(** [t.shape == (b, s, v)] *)
Definition shape3 {A : Type} (b s v : nat) (t : list (list (list A))) : Prop :=
  length t = b ∧ Forall (shape2 s v) t.

(** Every target id indexes a vocabulary of size [v]. *)
Definition tkids_below (v : nat) (batch_tkids : list (list nat)) : Prop :=
  Forall (Forall (λ tk, tk < v)) batch_tkids.


End with_floats.

(** *** The test's fixtures *)

(** Floating-point computations kept as the expressions that denote them. *)
Inductive fexpr : Set :=
  | Lit (q : Q)
  | NaN
  | Log (x : fexpr)
  | Add (x y : fexpr)
  | Div (x y : fexpr)
  | Neg (x : fexpr)
  | OfNat (n : nat).

(** [isnan] on the entries of a tensor, which are literals or [math.nan]. *)
Definition isnan (x : fexpr) : bool :=
  match x with
  | NaN => true
  | _ => false
  end.

(** The special token ids the test imports from [lmp.tknzr._base], which is
    not among the sources: four distinct ids below the fixture's vocabulary
    size of 4. *)
Definition BOS_TKID : nat := 0.
Definition EOS_TKID : nat := 1.
Definition PAD_TKID : nat := 2.
Definition UNK_TKID : nat := 3.

(** [pd[k] = x] on a distribution. *)
Definition set_prob (pd : list fexpr) (k : nat) (x : fexpr) : list fexpr :=
  <[k := x]> pd.

(** The fixture [batch_tkids], shape [(2, 5)]. *)
Definition batch_tkids : list (list nat) :=
  [ [BOS_TKID; UNK_TKID; EOS_TKID; PAD_TKID; PAD_TKID];
    [BOS_TKID; UNK_TKID; UNK_TKID; UNK_TKID; EOS_TKID] ].

(** The fixture [batch_tkids_pd], shape [(2, 5, 4)]: zeros, then one entry
    set per position. *)
Definition batch_tkids_pd : list (list (list fexpr)) :=
  let zeros := replicate 4 (Lit 0) in
  [ [ set_prob zeros BOS_TKID (Lit 0.9);
      set_prob zeros UNK_TKID (Lit 0.8);
      set_prob zeros EOS_TKID (Lit 0.7);
      set_prob zeros PAD_TKID (Lit 0.6);
      set_prob zeros PAD_TKID (Lit 0.5) ];
    [ set_prob zeros BOS_TKID (Lit 0.4);
      set_prob zeros UNK_TKID (Lit 0.3);
      set_prob zeros UNK_TKID (Lit 0.2);
      set_prob zeros UNK_TKID (Lit 0.1);
      set_prob zeros EOS_TKID NaN ] ].

(** The fixture [batch_cross_entropy_loss], shape [(2)]: the value the test
    requires of [cross_entropy_loss] on the two fixtures above. *)
Definition batch_cross_entropy_loss : list fexpr :=
  (* Padding is masked. *)
  let b0 := Add (Add (Log (Lit 0.9)) (Log (Lit 0.8))) (Log (Lit 0.7)) in
  let b0 := Div b0 (OfNat 3) in
  (* NaN is masked. *)
  let b1 := Add (Add (Add (Log (Lit 0.4)) (Log (Lit 0.3))) (Log (Lit 0.2)))
                (Log (Lit 0.1)) in
  let b1 := Div b1 (OfNat 4) in
  Neg <$> [b0; b1].

(** The batch [batch_tkids_pd] with every distribution at a padding position
    overwritten by NaN. *)
Definition batch_tkids_pd_nan_at_padding : list (list (list fexpr)) :=
  let zeros := replicate 4 (Lit 0) in
  [ [ set_prob zeros BOS_TKID (Lit 0.9);
      set_prob zeros UNK_TKID (Lit 0.8);
      set_prob zeros EOS_TKID (Lit 0.7);
      replicate 4 NaN;
      replicate 4 NaN ];
    [ set_prob zeros BOS_TKID (Lit 0.4);
      set_prob zeros UNK_TKID (Lit 0.3);
      set_prob zeros UNK_TKID (Lit 0.2);
      set_prob zeros UNK_TKID (Lit 0.1);
      set_prob zeros EOS_TKID NaN ] ].

End Metric.

(** ** [lmp.model]: the private models *)

Module PrivateModels.

Import Registry.

(** The block classes re-imported beside the residual models. *)
Inductive block_class : Set :=
  | ResGRUBlock
  | ResLSTMBlock
  | ResRNNBlock.

#[global] Instance block_class_eq_dec : EqDecision block_class.
Proof. solve_decision. Defined.

Section with_model_name.

Variable model_name : model_class → string.

(** [PRIVA_MODELS]: a dict display, its three items stored in the order they
    are written, a later item replacing an earlier one under the same key. *)
Definition PRIVA_MODELS : gmap string (list block_class) :=
  <[model_name ResRNNModel := [ResRNNBlock]]>
    (<[model_name ResLSTMModel := [ResLSTMBlock]]>
       (<[model_name ResGRUModel := [ResGRUBlock]]> ∅)).

End with_model_name.

(** The block a residual model is built from; the other models have none. *)
Definition private_block (m : model_class) : option block_class :=
  match m with
  | ResGRUModel => Some ResGRUBlock
  | ResLSTMModel => Some ResLSTMBlock
  | ResRNNModel => Some ResRNNBlock
  | GRUModel | LSTMModel | RNNModel => None
  end.

(** A naming in which every residual model carries the name of the model it
    extends. *)
Definition colliding_model_name (m : model_class) : string :=
  match m with
  | GRUModel | ResGRUModel => "GRU"
  | LSTMModel | ResLSTMModel => "LSTM"
  | RNNModel | ResRNNModel => "RNN"
  end.

End PrivateModels.

(** ** [train_parser], as a table of [add_argument] calls *)

Module TrainParser.

Import Argparse BaseModel.

(** The keywords of one [add_argument] call. *)
Record arg_spec (F : Type) : Type := mkSpec {
  spec_option : string;
  spec_choices : option (list string);
  spec_default : value F;
  spec_help : string;
  spec_required : bool;
  spec_type : arg_type
}.
Arguments mkSpec {F}.
Arguments spec_option {F}.
Arguments spec_choices {F}.
Arguments spec_default {F}.
Arguments spec_help {F}.
Arguments spec_required {F}.
Arguments spec_type {F}.

Section specs.

Context {F : Type}.
Variable DSET_OPTS_keys : list string.

(** The action [add_argument] builds from the keywords. *)
Definition action_of_spec (sp : arg_spec F) : Action F :=
  mkAction [spec_option sp]
           (Str.dash_to_underscore (Str.lstrip_dash (spec_option sp)))
           Store (spec_required sp) (spec_type sp) (Some (spec_default sp))
           (spec_choices sp) (spec_help sp).

(** The calls one after the other, the first [ArgumentError] ending them. *)
Fixpoint add_arguments (specs : list (arg_spec F)) (p : @Parser F)
    : add_result (@Parser F) :=
  match specs with
  | [] => Added p
  | sp :: specs' =>
      p' ←+ add_argument p (spec_option sp) (spec_choices sp) (spec_default sp)
              (spec_help sp) (spec_required sp) (spec_type sp) ;;
      add_arguments specs' p'
  end.

(** An option string that [add_argument] takes for one long option: two
    dashes, then a name. *)
Definition long_option (o : string) : bool :=
  Str.startswith o "--" && Str.nonempty (Str.lstrip_dash o).

(** A parser made by [argparse.ArgumentParser()], all settings at their
    defaults (conflicts are errors, options begin with a dash, no
    [argument_default]), to which long options have been added by
    [add_argument]. *)
Definition default_built (p : @Parser F) : Prop :=
  ∃ specs,
    Forall (λ sp, long_option (spec_option sp)) specs
    ∧ add_arguments specs ArgumentParser = Added p.

(** The sixteen calls of [train_parser], in its order. *)
Definition train_specs : list (arg_spec F) :=
  [ mkSpec "--batch_size" None VNone "Mini-batch size." true TInt;
    mkSpec "--beta1" None VNone
      "First beta coefficient of AdamW optimizer." true TFloat;
    mkSpec "--beta2" None VNone
      "Second beta coefficient of AdamW optimizer." true TFloat;
    mkSpec "--ckpt_step" None VNone "Checkpoint save interval." true TInt;
    mkSpec "--dset_name" (Some DSET_OPTS_keys) VNone
      "Name of the dataset which will be used to train language model." true TStr;
    mkSpec "--eps" None VNone
      "Denominator smooth term of AdamW optimizer." true TFloat;
    mkSpec "--exp_name" None VNone
      "Name of the language model training experiment." true TStr;
    mkSpec "--log_step" None VNone "Performance log interval." true TInt;
    mkSpec "--lr" None VNone "Learning rate." true TFloat;
    mkSpec "--max_norm" None VNone "Gradient max-norm constraint." true TFloat;
    mkSpec "--max_seq_len" None VNone
      "Maximum sequence length constraint. Set to `-1` to allow arbitrary token sequence length."
      true TInt;
    mkSpec "--n_epoch" None VNone "Number of training epochs." true TInt;
    mkSpec "--tknzr_exp_name" None VNone
      "Name of the pre-trained tokenizer experiment." true TStr;
    mkSpec "--ver" None VNone "Version of the dataset." true TStr;
    mkSpec "--wd" None VNone
      "Weight decay coefficient of AdamW optimizer." true TFloat;
    mkSpec "--seed" None (VInt 42) "Random seed." false TInt ].

(** The option strings [train_parser] registers, in its order. *)
Definition train_option_strings : list string :=
  spec_option <$> train_specs.

(** The actions [train_parser] adds, in its order. *)
Definition train_actions : list (Action F) :=
  action_of_spec <$> train_specs.

End specs.

(** The sixteen attributes of the namespace: the required ones and [seed]. *)
Definition attribute_dests : list string :=
  required_dests ++ ["seed"].

(** The [type=] of each attribute. *)
Definition attribute_type (d : string) : arg_type :=
  if bool_decide (d = "seed") then TInt else declared_type d.

(** The argument list that supplies each [(dest, value)] of [pairs] as the
    single string [--dest=value]. *)
Definition argv_eq_of (pairs : list (string * string)) : list string :=
  (λ dv, "--" +:+ dv.1 +:+ "=" +:+ dv.2) <$> pairs.

(** Every character of [s] is an ASCII character.  On such a string the
    digits that argparse's pattern for negative numbers matches are the
    characters [0] to [9]; in other scripts there are more. *)
Fixpoint ascii_only (s : string) : bool :=
  match s with
  | EmptyString => true
  | String c s' => (nat_of_ascii c <? 128)%nat && ascii_only s'
  end.

Section values.

Context {F : Type}.
Variable py_int : string → option Z.
Variable py_float : string → option F.
Variable DSET_OPTS_keys : list string.

(** What an attribute may hold once an argument string has set it: the
    string converted by the attribute's type, a choice in the case of
    [dset_name]; or the empty list an explicit ['--'] leaves. *)
Definition set_from_argument (d : string) (x : value F) : Prop :=
  x = VEmptyList
  ∨ ∃ v, get_value py_int py_float (attribute_type d) v = Some x
         ∧ (d = "dset_name" → v ∈ DSET_OPTS_keys).

(** A string that appears where [parse_args] cannot go on: ['--'], a help
    flag, an ambiguous abbreviation or an unknown option. *)
Definition stray (p : @Parser F) (s : string) : Prop :=
  match classify p s with
  | Positional => False
  | Optional a _ => kind a = Help
  | Ambiguous | Unrecognized | DoubleDash => True
  end.

End values.

End TrainParser.

(* ===================================================================== *)
(** * Part II: theorems                                                   *)
(* ===================================================================== *)

(** A closed decidable goal, settled by evaluating its decision. *)
Ltac by_evaluation :=
  lazymatch goal with
  | |- ?G => refine (bool_decide_unpack G _); vm_compute; exact I
  end.

(** ** The registry *)

Section registry_facts.

Import Registry.

Variable model_name : model_class → string.

Lemma foldl_store_snoc (ms : list model_class) (m : model_class)
    (d : gmap string model_class) :
  foldl (λ d m, <[model_name m := m]> d) d (ms ++ [m])
  = <[model_name m := m]> (foldl (λ d m, <[model_name m := m]> d) d ms).
Proof. by rewrite foldl_app. Qed.

(** Looking a key up returns the last class of the list that carries it. *)
Lemma dict_comprehension_lookup (ms : list model_class) (k : string) :
  dict_comprehension model_name ms !! k
  = last (filter (λ m, model_name m = k) ms).
Proof.
  unfold dict_comprehension.
  induction ms as [|m ms IH] using rev_ind; [done|].
  rewrite foldl_store_snoc, filter_app, lookup_insert.
  rewrite filter_cons, filter_nil.
  case_decide as Hk; [by rewrite last_snoc|].
  by rewrite app_nil_r.
Qed.

(** The keys are the names that occur in the list. *)
Lemma dict_comprehension_dom (ms : list model_class) :
  dom (dict_comprehension model_name ms) = list_to_set (model_name <$> ms).
Proof.
  unfold dict_comprehension.
  induction ms as [|m ms IH] using rev_ind; [apply dom_empty_L|].
  rewrite foldl_store_snoc, dom_insert_L, IH, fmap_app, list_to_set_app_L.
  simpl. rewrite (right_id_L ∅ (∪)). apply (comm_L (∪)).
Qed.

(** One entry per distinct name. *)
Lemma dict_comprehension_size (ms : list model_class) :
  size (dict_comprehension model_name ms)
  = length (remove_dups (model_name <$> ms)).
Proof.
  rewrite <- size_dom, dict_comprehension_dom.
  rewrite <- (size_list_to_set (C := gset string)) by apply NoDup_remove_dups.
  f_equal. apply set_eq. intros k.
  by rewrite !elem_of_list_to_set, elem_of_remove_dups.
Qed.

(** With pairwise distinct names every element of the list is found under
    its own name. *)
Lemma dict_comprehension_lookup_NoDup (ms : list model_class) (m : model_class) :
  NoDup (model_name <$> ms) → m ∈ ms →
  dict_comprehension model_name ms !! model_name m = Some m.
Proof.
  unfold dict_comprehension.
  induction ms as [|m' ms IH] using rev_ind; [by intros _ ?%elem_of_nil|].
  rewrite fmap_app, foldl_store_snoc. simpl.
  intros [Hms [Hfresh _]]%NoDup_app [Hin | ->%list_elem_of_singleton]%elem_of_app.
  - rewrite lookup_insert_ne; [by apply IH|].
    intros Heq. apply (Hfresh (model_name m)).
    + apply list_elem_of_fmap. eauto.
    + rewrite Heq. apply list_elem_of_singleton. done.
  - apply lookup_insert_eq.
Qed.

Lemma filter_none {A : Type} (P : A → Prop) `{!∀ x, Decision (P x)} (l : list A) :
  (∀ x, x ∈ l → ¬ P x) → filter P l = [].
Proof.
  induction l as [|x l IH]; intros Hl; [done|].
  rewrite filter_cons_False by (apply Hl; left).
  apply IH. intros y Hy. apply Hl. by right.
Qed.

(** A name shared by two classes of the list is kept for the later one only:
    distinct names are needed for every class to be found. *)
Lemma dict_comprehension_shadowed (ms1 ms2 : list model_class) (m m' : model_class) :
  model_name m = model_name m' → m ≠ m' →
  (∀ x, x ∈ ms2 → model_name x ≠ model_name m) →
  dict_comprehension model_name (m :: ms1 ++ m' :: ms2) !! model_name m ≠ Some m.
Proof.
  intros Hname Hne Hlater. rewrite dict_comprehension_lookup.
  change (m :: ms1 ++ m' :: ms2) with ([m] ++ ms1 ++ m' :: ms2).
  rewrite !filter_app, filter_cons_True by done.
  rewrite (filter_cons_True _ m') by done.
  rewrite (filter_none _ ms2) by done.
  rewrite !app_assoc, last_snoc. congruence.
Qed.

(** X14.  Provided the classes of [ALL_MODELS] carry pairwise distinct names
    and [RNNModel] is named 'RNN': [MODEL_OPTS] maps the name of every class
    of [ALL_MODELS] to that class; 'RNN' is a key and [MODEL_OPTS['RNN']] is
    [RNNModel]; and [MODEL_OPTS] has exactly one entry per distinct name in
    [ALL_MODELS] (its keys are those names, its size their number). *)
Theorem MODEL_OPTS_maps_every_model_name :
  NoDup (model_name <$> ALL_MODELS) →
  model_name RNNModel = "RNN" →
  (∀ M, M ∈ ALL_MODELS → MODEL_OPTS model_name !! model_name M = Some M)
  ∧ "RNN" ∈ dom (MODEL_OPTS model_name)
  ∧ MODEL_OPTS model_name !! "RNN" = Some RNNModel
  ∧ dom (MODEL_OPTS model_name) = list_to_set (model_name <$> ALL_MODELS)
  ∧ size (MODEL_OPTS model_name)
    = length (remove_dups (model_name <$> ALL_MODELS)).
Proof.
  intros Hdistinct Hrnn.
  assert (Hall : ∀ M, M ∈ ALL_MODELS →
                 MODEL_OPTS model_name !! model_name M = Some M)
    by (intros M HM; by apply dict_comprehension_lookup_NoDup).
  assert (Hlookup : MODEL_OPTS model_name !! "RNN" = Some RNNModel).
  { rewrite <- Hrnn. apply Hall. unfold ALL_MODELS. set_solver. }
  repeat split; [done| |done|apply dict_comprehension_dom|apply dict_comprehension_size].
  apply elem_of_dom. by rewrite Hlookup.
Qed.

End registry_facts.

(** The sample names are pairwise distinct, and the registry run on them
    has the six entries. *)
Lemma MODEL_OPTS_sample_naming :
  (∀ M, M ∈ Registry.ALL_MODELS →
     Registry.MODEL_OPTS Registry.sample_model_name
       !! Registry.sample_model_name M = Some M)
  ∧ "RNN" ∈ dom (Registry.MODEL_OPTS Registry.sample_model_name)
  ∧ Registry.MODEL_OPTS Registry.sample_model_name !! "RNN"
    = Some Registry.RNNModel
  ∧ dom (Registry.MODEL_OPTS Registry.sample_model_name)
    = list_to_set (Registry.sample_model_name <$> Registry.ALL_MODELS)
  ∧ size (Registry.MODEL_OPTS Registry.sample_model_name)
    = length (remove_dups (Registry.sample_model_name <$> Registry.ALL_MODELS)).
Proof.
  apply (MODEL_OPTS_maps_every_model_name Registry.sample_model_name).
  - by_evaluation.
  - reflexivity.
Defined.

(** ** The cross-entropy loss *)

Section metric_facts.

Import Metric.

Context {F : Type}.
Variable flog : F → F.
Variable fadd : F → F → F.
Variable fdiv : F → F → F.
Variable fneg : F → F.
Variable fzero : F.
Variable of_nat : nat → F.
Variable is_nan : F → bool.
Variable PAD : nat.

(** *** One sequence *)

Lemma filter_fmap_S (Q1 Q2 : nat → Prop)
    `{!∀ j, Decision (Q1 j), !∀ j, Decision (Q2 j)} (js : list nat) :
  (∀ j, Q1 (S j) ↔ Q2 j) → filter Q1 (S <$> js) = S <$> filter Q2 js.
Proof.
  intros Hiff. induction js as [|j js IH]; [done|].
  rewrite fmap_cons, !filter_cons, IH.
  destruct (decide (Q1 (S j))) as [H1|H1], (decide (Q2 j)) as [H2|H2];
    try done; by apply Hiff in H1 || apply Hiff in H2.
Qed.

Lemma unpadded_positions_cons (tk : nat) (tkids : list nat) :
  unpadded_positions PAD (tk :: tkids)
  = (if bool_decide (tk = PAD) then [] else [0])
    ++ (S <$> unpadded_positions PAD tkids).
Proof.
  unfold unpadded_positions. simpl length. rewrite <- cons_seq, <- fmap_S_seq.
  assert (Htail : filter (λ j, (tk :: tkids) !! j ≠ Some PAD) (S <$> seq 0 (length tkids))
                  = S <$> filter (λ j, tkids !! j ≠ Some PAD) (seq 0 (length tkids)))
    by (by apply filter_fmap_S).
  destruct (decide (tk = PAD)) as [->|Hne].
  - rewrite bool_decide_true, filter_cons_False, Htail by (simpl; auto). done.
  - rewrite bool_decide_false, filter_cons_True, Htail by (simpl; congruence). done.
Qed.

Lemma correct_tk_prob_S (tk : nat) (tkids : list nat) (pd : list F)
    (pds : list (list F)) (j : nat) :
  correct_tk_prob fzero (tk :: tkids) (pd :: pds) (S j)
  = correct_tk_prob fzero tkids pds j.
Proof. reflexivity. Qed.

Lemma kept_positions_cons (tk : nat) (tkids : list nat) (pd : list F)
    (pds : list (list F)) :
  kept_positions fzero is_nan PAD (tk :: tkids) (pd :: pds)
  = (if bool_decide (tk = PAD) || is_nan (default fzero (pd !! tk))
     then [] else [0])
    ++ (S <$> kept_positions fzero is_nan PAD tkids pds).
Proof.
  unfold kept_positions. rewrite unpadded_positions_cons, filter_app.
  assert (Htail :
    filter (λ j, is_nan (correct_tk_prob fzero (tk :: tkids) (pd :: pds) j) = false)
           (S <$> unpadded_positions PAD tkids)
    = S <$> filter (λ j, is_nan (correct_tk_prob fzero tkids pds j) = false)
                   (unpadded_positions PAD tkids))
    by (by apply filter_fmap_S).
  rewrite Htail. f_equal. case_bool_decide as Hpad; [done|]. simpl orb.
  rewrite filter_cons, filter_nil.
  change (correct_tk_prob fzero (tk :: tkids) (pd :: pds) 0)
    with (default fzero (pd !! tk)).
  destruct (is_nan (default fzero (pd !! tk))); by case_decide.
Qed.

(** Adding from the left is adding each term to the sum of those before
    it. *)
Lemma fsum_sum_before_last (xs : list F) :
  fsum fadd fzero xs = sum_before_last fadd fzero (reverse xs).
Proof.
  induction xs as [|x xs IH] using rev_ind; [done|].
  rewrite reverse_snoc. destruct xs as [|y xs]; [done|].
  change (fsum fadd fzero ((y :: xs) ++ [x])) with (foldl fadd y (xs ++ [x])).
  rewrite foldl_app. simpl foldl.
  change (foldl fadd y xs) with (fsum fadd fzero (y :: xs)). rewrite IH.
  destruct (reverse (y :: xs)) as [|z zs] eqn:Hrev; [|done].
  apply (f_equal length) in Hrev. rewrite length_reverse in Hrev. done.
Qed.

(** With matching shapes and target ids inside the vocabulary, the
    log-probabilities kept are those of the kept positions, in order. *)
Lemma masked_log_probs_positions (V : nat) (tkids : list nat) (pds : list (list F)) :
  length pds = length tkids →
  Forall (λ pd, length pd = V) pds →
  Forall (λ tk, tk < V) tkids →
  masked_log_probs flog is_nan PAD tkids pds
  = Some ((λ j, flog (correct_tk_prob fzero tkids pds j))
          <$> kept_positions fzero is_nan PAD tkids pds).
Proof.
  revert pds. induction tkids as [|tk tkids IH]; intros [|pd pds] Hlen Hpds Htk;
    try discriminate; [done|].
  apply Forall_cons in Hpds as [Hpd Hpds]. apply Forall_cons in Htk as [Htk Htks].
  simpl in Hlen. simpl masked_log_probs.
  rewrite IH by (done || lia). simpl.
  rewrite kept_positions_cons, fmap_app, <- list_fmap_compose.
  destruct (lookup_lt_is_Some_2 pd tk) as [p Hp]; [lia|].
  rewrite Hp. simpl.
  destruct (bool_decide (tk = PAD) || is_nan p); simpl.
  - f_equal.
  - do 2 f_equal. unfold correct_tk_prob. simpl. by rewrite Hp.
Qed.

Lemma seq_cross_entropy_loss_mean (V : nat) (tkids : list nat) (pds : list (list F)) :
  length pds = length tkids →
  Forall (λ pd, length pd = V) pds →
  Forall (λ tk, tk < V) tkids →
  seq_cross_entropy_loss flog fadd fdiv fneg fzero of_nat is_nan PAD tkids pds
  = Some (fneg (mean_log_prob flog fadd fdiv fzero of_nat
                  (kept_positions fzero is_nan PAD tkids pds) tkids pds)).
Proof.
  intros Hlen Hpds Htk. unfold seq_cross_entropy_loss, mean_log_prob.
  rewrite (masked_log_probs_positions V) by done. simpl.
  by rewrite fsum_sum_before_last, length_fmap.
Qed.


(** *** The batch *)

(** C1.  For target ids of shape (batch_size, seq_len), inside the
    vocabulary, and predicted distributions of shape (batch_size, seq_len,
    vocab_size), [cross_entropy_loss] returns a tensor of shape (batch_size)
    whose entry for each sequence is the negative of the mean log-probability
    of the correct next token over that sequence's positions, where the
    positions whose target is the padding token, and the positions at which
    the probability of the correct token is NaN, are left out of the sum and
    of the count. *)
Theorem cross_entropy_loss_masked_mean (B L V : nat)
    (batch_tkids : list (list nat)) (batch_tkids_pd : list (list (list F))) :
  shape2 B L batch_tkids →
  shape3 B L V batch_tkids_pd →
  tkids_below V batch_tkids →
  ∃ loss,
    cross_entropy_loss flog fadd fdiv fneg fzero of_nat is_nan PAD
      batch_tkids batch_tkids_pd = Some loss
    ∧ length loss = B
    ∧ ∀ i tkids pds,
        batch_tkids !! i = Some tkids → batch_tkids_pd !! i = Some pds →
        loss !! i
        = Some (fneg (mean_log_prob flog fadd fdiv fzero of_nat
                        (kept_positions fzero is_nan PAD tkids pds) tkids pds)).
Proof.
  revert B batch_tkids_pd.
  induction batch_tkids as [|tkids batch_tkids IH];
    intros B [|pds batch_tkids_pd] [HB Hrows] [HB' Hpds] Hbelow;
    simpl in HB, HB'; try (exfalso; lia).
  - exists []. repeat split; [done|]. intros i ? ? Hi. by rewrite lookup_nil in Hi.
  - apply Forall_cons in Hrows as [Hrow Hrows].
    apply Forall_cons in Hpds as [[Hlen Hpd] Hpds].
    apply Forall_cons in Hbelow as [Hlt Hbelow].
    destruct (IH (length batch_tkids) batch_tkids_pd) as (loss & Hloss & Hlength & Hentries);
      [by split|split; [lia|done]|done|].
    exists (fneg (mean_log_prob flog fadd fdiv fzero of_nat
                    (kept_positions fzero is_nan PAD tkids pds) tkids pds) :: loss).
    simpl cross_entropy_loss.
    rewrite (seq_cross_entropy_loss_mean V) by (done || lia).
    simpl. rewrite Hloss. simpl. repeat split; [lia|].
    intros [|i] tkids' pds' Hi Hi'; simpl in *.
    + congruence.
    + by apply Hentries.
Qed.


End metric_facts.

(** *** The loss on the test's fixtures *)

Lemma fixture_shapes :
  Metric.shape2 2 5 Metric.batch_tkids
  ∧ Metric.shape3 2 5 4 Metric.batch_tkids_pd
  ∧ Metric.shape3 2 5 4 Metric.batch_tkids_pd_nan_at_padding
  ∧ Metric.tkids_below 4 Metric.batch_tkids.
Proof.
  unfold Metric.shape3, Metric.shape2, Metric.tkids_below.
  repeat split; repeat constructor.
Qed.

(** On the test's fixtures the loss is the value the test requires: three
    positions of the first sequence and four of the second are counted. *)
Lemma cross_entropy_loss_fixture_value :
  Metric.cross_entropy_loss Metric.Log Metric.Add Metric.Div Metric.Neg
    (Metric.Lit 0) Metric.OfNat Metric.isnan Metric.PAD_TKID
    Metric.batch_tkids Metric.batch_tkids_pd
  = Some Metric.batch_cross_entropy_loss.
Proof. vm_compute. reflexivity. Qed.

Lemma cross_entropy_loss_masked_mean_fixture :
  ∃ loss,
    Metric.cross_entropy_loss Metric.Log Metric.Add Metric.Div Metric.Neg
      (Metric.Lit 0) Metric.OfNat Metric.isnan Metric.PAD_TKID
      Metric.batch_tkids Metric.batch_tkids_pd = Some loss
    ∧ length loss = 2
    ∧ ∀ i tkids pds,
        Metric.batch_tkids !! i = Some tkids →
        Metric.batch_tkids_pd !! i = Some pds →
        loss !! i
        = Some (Metric.Neg
                  (Metric.mean_log_prob Metric.Log Metric.Add Metric.Div
                     (Metric.Lit 0) Metric.OfNat
                     (Metric.kept_positions (Metric.Lit 0) Metric.isnan
                        Metric.PAD_TKID tkids pds)
                     tkids pds)).
Proof.
  apply (cross_entropy_loss_masked_mean Metric.Log Metric.Add Metric.Div
           Metric.Neg (Metric.Lit 0) Metric.OfNat Metric.isnan
           Metric.PAD_TKID 2 5 4).
  - apply fixture_shapes.
  - apply fixture_shapes.
  - apply fixture_shapes.
Defined.

(** The second sequence of the fixtures has no padding, and the probability
    of its last target is NaN: the mean over all the positions whose target
    is not the padding token has five terms, the logarithm of NaN among
    them, where the loss has the four terms the test requires. *)
Lemma cross_entropy_loss_masks_NaN :
  ¬ ∃ loss,
      Metric.cross_entropy_loss Metric.Log Metric.Add Metric.Div Metric.Neg
        (Metric.Lit 0) Metric.OfNat Metric.isnan Metric.PAD_TKID
        Metric.batch_tkids Metric.batch_tkids_pd = Some loss
      ∧ length loss = 2
      ∧ ∀ i tkids pds,
          Metric.batch_tkids !! i = Some tkids →
          Metric.batch_tkids_pd !! i = Some pds →
          loss !! i
          = Some (Metric.Neg
                    (Metric.mean_log_prob Metric.Log Metric.Add Metric.Div
                       (Metric.Lit 0) Metric.OfNat
                       (Metric.unpadded_positions Metric.PAD_TKID tkids)
                       tkids pds)).
Proof.
  intros (loss & Hloss & _ & Hentries).
  rewrite cross_entropy_loss_fixture_value in Hloss. injection Hloss as <-.
  specialize (Hentries 1 _ _ eq_refl eq_refl).
  vm_compute in Hentries. discriminate Hentries.
Qed.



(** ** The argument parser *)

Section argparse_facts.

Import Argparse.

Context {F : Type}.
Variable py_int : string → option Z.
Variable py_float : string → option F.

(** *** The parsing loop, one option at a time *)

Lemma consume_nil (p : @Parser F) ns seen :
  consume py_int py_float p [] ns seen
  = match missing_required p seen with
    | [] => Parsed ns
    | _ :: _ => SystemExit
    end.
Proof. reflexivity. Qed.

(** An option string followed by its value. *)
Lemma consume_option_value (p : @Parser F) (s v : string) (rest : list string)
    (a : Action F) ns seen :
  classify p s = Optional a None → kind a = Store →
  consume py_int py_float p (s :: v :: rest) ns seen
  = match classify p v with
    | Positional =>
        match get_values py_int py_float a v with
        | Some x =>
            consume py_int py_float p rest (<[dest a := x]> ns) ({[dest a]} ∪ seen)
        | None => SystemExit
        end
    | _ => SystemExit
    end.
Proof. intros Hs Hk. simpl. rewrite Hs, Hk. reflexivity. Qed.

(** The string ['--'] is never read as an argument. *)
Lemma classify_Positional_not_double_dash (p : @Parser F) (v : string) :
  classify p v = Positional → v ≠ "--".
Proof.
  intros Hv ->. unfold classify in Hv.
  rewrite bool_decide_true in Hv by done. discriminate.
Qed.

(** *** What a successful parse has seen *)

(** When the loop ends in a namespace, every required action was already
    seen or is named by one of the argument strings. *)
Lemma consume_Parsed_names (p : @Parser F) (n : nat) :
  ∀ (args : list string) (ns : gmap string (value F)) (seen : gset string)
    (ns' : gmap string (value F)),
    (length args ≤ n)%nat →
    consume py_int py_float p args ns seen = Parsed ns' →
    ∀ a, a ∈ p → required a = true →
      dest a ∈ seen ∨ ∃ s, s ∈ args ∧ names_dest p s (dest a).
Proof.
  induction n as [|n IH]; intros args ns seen ns' Hlen Hparsed a Ha Hreq.
  - destruct args; [|simpl in Hlen; lia].
    rewrite consume_nil in Hparsed.
    destruct (decide (dest a ∈ seen)) as [Hseen|Hseen]; [by left|].
    assert (Hmiss : a ∈ missing_required p seen)
      by (apply list_elem_of_filter; auto).
    destruct (missing_required p seen); [by apply elem_of_nil in Hmiss|discriminate].
  - destruct args as [|s rest].
    { apply (IH [] ns seen ns'); [simpl; lia|done..]. }
    simpl in Hlen, Hparsed.
    destruct (classify p s) as [|a0 e| | |] eqn:Hs; try discriminate.
    destruct (kind a0) eqn:Hk; [|discriminate].
    assert (Hstep : ∀ rest' x,
      (∀ s', s' ∈ rest' → s' ∈ s :: rest) → (length rest' ≤ n)%nat →
      consume py_int py_float p rest' (<[dest a0 := x]> ns) ({[dest a0]} ∪ seen)
        = Parsed ns' →
      dest a ∈ seen ∨ ∃ s', s' ∈ s :: rest ∧ names_dest p s' (dest a)).
    { intros rest' x Hsub Hlen' Hrest.
      destruct (IH rest' _ _ ns' Hlen' Hrest a Ha Hreq) as [Hin|(s' & Hs' & Hname)].
      - apply elem_of_union in Hin as [Hin|Hin]; [|by left].
        apply elem_of_singleton in Hin. right. exists s. split; [left|].
        exists a0, e. by split.
      - right. exists s'. split; [by apply Hsub|done]. }
    destruct e as [v|].
    + destruct (get_values py_int py_float a0 v) as [x|]; [|discriminate].
      apply (Hstep rest x); [by right|lia|done].
    + destruct rest as [|v rest']; [discriminate|].
      destruct (classify p v); try discriminate.
      destruct (get_values py_int py_float a0 v) as [x|]; [|discriminate].
      apply (Hstep rest' x); [intros s' Hs'; by do 2 right|simpl in Hlen; lia|done].
Qed.

(** A required argument that no argument string names makes [parse_args]
    exit. *)
Lemma parse_args_missing_required (p : @Parser F) (args : list string) (a : Action F) :
  a ∈ p → required a = true →
  (∀ s, s ∈ args → ¬ names_dest p s (dest a)) →
  parse_args py_int py_float p args = SystemExit.
Proof.
  intros Ha Hreq Hmissing. unfold parse_args.
  destruct (consume py_int py_float p args (initial_namespace p) ∅) as [ns'|] eqn:Hc;
    [exfalso|done].
  destruct (consume_Parsed_names p (length args) args _ _ ns' (le_n _) Hc a Ha Hreq)
    as [Hin|(s & Hs & Hname)].
  - by apply not_elem_of_empty in Hin.
  - by apply (Hmissing s).
Qed.

End argparse_facts.

(** ** [train_parser] and the parser it leaves *)

Section train_parser_facts.

Import Argparse BaseModel.

Context {F : Type}.
Variable py_int : string → option Z.
Variable py_float : string → option F.
Variable keys : list string.

Local Abbreviation P := (@trained_parser F keys).

(** On a fresh parser no option string conflicts: [train_parser] returns. *)
Lemma train_parser_fresh :
  train_parser keys ArgumentParser = Added P.
Proof. vm_compute. reflexivity. Qed.

(** The required actions of the parser are the fifteen listed. *)
Lemma required_actions_dests (a : Action F) :
  a ∈ P → required a = true → dest a ∈ required_dests.
Proof.
  intros Ha Hreq.
  assert (Hall : forallb (λ a, implb (required a)
                                     (bool_decide (dest a ∈ required_dests))) P = true)
    by (vm_compute; reflexivity).
  rewrite forallb_forall in Hall. apply list_elem_of_In, Hall in Ha.
  rewrite Hreq in Ha. simpl in Ha. by apply bool_decide_eq_true_1 in Ha.
Qed.

Lemma required_dests_actions (d : string) :
  d ∈ required_dests → ∃ a : Action F, a ∈ P ∧ required a = true ∧ dest a = d.
Proof.
  intros Hd.
  assert (Hall : forallb (λ d, existsb (λ a : Action F,
                                          required a && bool_decide (dest a = d)) P)
                         required_dests = true)
    by (vm_compute; reflexivity).
  rewrite forallb_forall in Hall. apply list_elem_of_In, Hall in Hd.
  apply existsb_exists in Hd as (a & Ha & Hrd).
  apply andb_true_iff in Hrd as [Hreq Hdest].
  exists a. split; [by apply list_elem_of_In|]. split; [done|].
  by apply bool_decide_eq_true_1 in Hdest.
Qed.

(** The option string [--d] of a required argument is read as its action,
    which stores one value of the declared type; only [dset_name] has
    choices. *)
Lemma classify_required_option (d : string) :
  d ∈ required_dests →
  ∃ a : Action F,
    classify P ("--" +:+ d) = Optional a None
    ∧ dest a = d ∧ kind a = Store ∧ type_ a = declared_type d
    ∧ choices a = if bool_decide (d = "dset_name") then Some keys else None.
Proof.
  unfold required_dests. intros Hd.
  repeat (apply elem_of_cons in Hd as [->|Hd];
          [eexists; split; [vm_compute; reflexivity|by repeat split]|]).
  by apply elem_of_nil in Hd.
Qed.

(** For a string read as an argument, [get_values] succeeds exactly when
    the declared type converts it and, for [dset_name], it is a choice. *)
Lemma get_values_required (d v : string) (a : Action F) :
  type_ a = declared_type d →
  choices a = (if bool_decide (d = "dset_name") then Some keys else None) →
  classify P v = Positional →
  (acceptable py_int py_float keys d v →
     get_values py_int py_float a v
     = get_value py_int py_float (declared_type d) v)
  ∧ (is_Some (get_values py_int py_float a v) →
     acceptable py_int py_float keys d v).
Proof.
  intros Htype Hchoices Hv.
  pose proof (classify_Positional_not_double_dash P v Hv) as Hdd.
  unfold get_values, check_value. rewrite bool_decide_false by done.
  rewrite Htype, Hchoices. split.
  - intros (_ & [x Hx] & Hkeys). rewrite Hx.
    case_bool_decide as Hd; [|done]. subst d.
    change (declared_type "dset_name") with TStr in Hx. simpl in Hx.
    injection Hx as <-. by rewrite bool_decide_true by auto.
  - intros [x Hx]. split; [done|].
    destruct (get_value py_int py_float (declared_type d) v) as [y|] eqn:Hy;
      [|discriminate].
    split; [done|]. intros ->. rewrite bool_decide_true in Hx by done.
    change (declared_type "dset_name") with TStr in Hy. simpl in Hy.
    injection Hy as <-. case_bool_decide; [done|discriminate].
Qed.

(** One supplied pair: the loop goes on when the value is acceptable, and
    exits when it is not. *)
Lemma consume_pair_acceptable (d v : string) (rest : list string) ns seen :
  d ∈ required_dests → acceptable py_int py_float keys d v →
  ∃ x, get_value py_int py_float (declared_type d) v = Some x
    ∧ consume py_int py_float P (("--" +:+ d) :: v :: rest) ns seen
      = consume py_int py_float P rest (<[d := x]> ns) ({[d]} ∪ seen).
Proof.
  intros Hd Hacc.
  destruct (classify_required_option d Hd) as (a & Hs & Hdest & Hk & Htype & Hch).
  destruct (get_values_required d v a Htype Hch (proj1 Hacc)) as [Hget _].
  destruct Hacc as (Hv & [x Hx] & Hkeys).
  exists x. split; [done|].
  rewrite (consume_option_value py_int py_float P _ v rest a) by done.
  rewrite Hv, Hget, Hx, Hdest by (split; [done|split; [by exists x|done]]).
  reflexivity.
Qed.

Lemma consume_pair_unacceptable (d v : string) (rest : list string) ns seen :
  d ∈ required_dests → ¬ acceptable py_int py_float keys d v →
  consume py_int py_float P (("--" +:+ d) :: v :: rest) ns seen = SystemExit.
Proof.
  intros Hd Hbad.
  destruct (classify_required_option d Hd) as (a & Hs & Hdest & Hk & Htype & Hch).
  rewrite (consume_option_value py_int py_float P _ v rest a) by done.
  destruct (classify P v) eqn:Hv; try reflexivity.
  destruct (get_values py_int py_float a v) as [x|] eqn:Hx; [|reflexivity].
  exfalso. apply Hbad.
  apply (get_values_required d v a Htype Hch Hv). by exists x.
Qed.

(** Whatever the value, a supplied pair either makes the loop exit or lets
    it go on with the rest. *)
Lemma consume_pair_cases (d v : string) (rest : list string) ns seen :
  d ∈ required_dests →
  consume py_int py_float P (("--" +:+ d) :: v :: rest) ns seen = SystemExit
  ∨ ∃ x, consume py_int py_float P (("--" +:+ d) :: v :: rest) ns seen
         = consume py_int py_float P rest (<[d := x]> ns) ({[d]} ∪ seen).
Proof.
  intros Hd.
  destruct (classify_required_option d Hd) as (a & Hs & Hdest & Hk & Htype & Hch).
  rewrite (consume_option_value py_int py_float P _ v rest a) by done.
  destruct (classify P v); try by left.
  destruct (get_values py_int py_float a v) as [x|]; [|by left].
  right. exists x. by rewrite Hdest.
Qed.

(** *** A whole argument list *)

Lemma argv_of_cons (d v : string) (pairs : list (string * string)) :
  argv_of ((d, v) :: pairs) = ("--" +:+ d) :: v :: argv_of pairs.
Proof. reflexivity. Qed.

Lemma seen_cons (d v : string) (pairs : list (string * string)) (seen : gset string) :
  list_to_set pairs.*1 ∪ ({[d]} ∪ seen)
  = list_to_set ((d, v) :: pairs).*1 ∪ seen.
Proof.
  rewrite fmap_cons, list_to_set_cons. simpl.
  rewrite (assoc_L (∪)). f_equal. apply (comm_L (∪)).
Qed.

Lemma store_pairs_cons (ns : gmap string (value F)) (d v : string)
    (pairs : list (string * string)) (x : value F) :
  get_value py_int py_float (declared_type d) v = Some x →
  store_pairs py_int py_float ns ((d, v) :: pairs)
  = store_pairs py_int py_float (<[d := x]> ns) pairs.
Proof. intros Hx. unfold store_pairs at 1. simpl. by rewrite Hx. Qed.

(** Acceptable pairs are all consumed; what is left is the check of the
    required arguments. *)
Lemma consume_pairs (pairs : list (string * string)) :
  ∀ (ns : gmap string (value F)) (seen : gset string),
    (∀ d v, (d, v) ∈ pairs →
       d ∈ required_dests ∧ acceptable py_int py_float keys d v) →
    consume py_int py_float P (argv_of pairs) ns seen
    = consume py_int py_float P []
        (store_pairs py_int py_float ns pairs) (list_to_set pairs.*1 ∪ seen).
Proof.
  induction pairs as [|[d v] pairs IH]; intros ns seen Hpairs.
  - change (list_to_set ([] : list (string * string)).*1 ∪ seen) with (∅ ∪ seen).
    by rewrite (left_id_L ∅ (∪)).
  - destruct (Hpairs d v) as [Hd Hacc]; [left|].
    destruct (consume_pair_acceptable d v (argv_of pairs) ns seen Hd Hacc)
      as (x & Hx & Hstep).
    rewrite argv_of_cons, Hstep, IH by (intros d' v' Hin; apply Hpairs; by right).
    by rewrite (store_pairs_cons ns d v pairs x Hx), (seen_cons d v).
Qed.

(** An unacceptable value anywhere among pairs of required arguments makes
    [parse_args] exit. *)
Lemma parse_args_unacceptable (pairs1 pairs2 : list (string * string)) (d v : string) :
  (∀ d' v', (d', v') ∈ pairs1 → d' ∈ required_dests) →
  d ∈ required_dests →
  ¬ acceptable py_int py_float keys d v →
  parse_args py_int py_float P (argv_of (pairs1 ++ (d, v) :: pairs2)) = SystemExit.
Proof.
  intros Hpairs1 Hd Hbad. unfold parse_args.
  generalize (initial_namespace P) (∅ : gset string).
  induction pairs1 as [|[d' v'] pairs1 IH]; intros ns seen.
  - simpl app. rewrite argv_of_cons. by apply consume_pair_unacceptable.
  - simpl app. rewrite argv_of_cons.
    destruct (consume_pair_cases d' v' (argv_of (pairs1 ++ (d, v) :: pairs2)) ns seen)
      as [Hexit|[x Hstep]]; [apply (Hpairs1 d' v'); left|done|].
    rewrite Hstep. apply IH. intros d'' v'' Hin. apply (Hpairs1 d'' v''). by right.
Qed.

(** With every required destination seen, the check passes. *)
Lemma consume_finish (ns : gmap string (value F)) (seen : gset string) :
  (∀ d, d ∈ required_dests → d ∈ seen) →
  consume py_int py_float P [] ns seen = Parsed ns.
Proof.
  intros Hseen. rewrite consume_nil.
  assert (Hnone : missing_required P seen = []).
  { apply filter_none. intros a Ha [Hreq Hnot].
    apply Hnot, Hseen. by apply required_actions_dests. }
  by rewrite Hnone.
Qed.

(** *** The namespace *)

Lemma store_pairs_snoc (ns : gmap string (value F))
    (pairs : list (string * string)) (d v : string) :
  store_pairs py_int py_float ns (pairs ++ [(d, v)])
  = match get_value py_int py_float (declared_type d) v with
    | Some x => <[d := x]> (store_pairs py_int py_float ns pairs)
    | None => store_pairs py_int py_float ns pairs
    end.
Proof. unfold store_pairs. by rewrite foldl_app. Qed.

(** An attribute no pair names keeps its value. *)
Lemma store_pairs_lookup_other (ns : gmap string (value F))
    (pairs : list (string * string)) (k : string) :
  k ∉ pairs.*1 → store_pairs py_int py_float ns pairs !! k = ns !! k.
Proof.
  induction pairs as [|[d v] pairs IH] using rev_ind; [done|].
  rewrite fmap_app, not_elem_of_app. simpl. intros [Hk Hd].
  rewrite store_pairs_snoc.
  destruct (get_value py_int py_float (declared_type d) v); [|by apply IH].
  rewrite lookup_insert_ne; [by apply IH|].
  intros ->. apply Hd. left.
Qed.

Lemma supplied_snoc (pairs : list (string * string)) (d' v' d : string) :
  supplied (pairs ++ [(d', v')]) d
  = if decide (d' = d) then Some v' else supplied pairs d.
Proof.
  unfold supplied. rewrite filter_app, filter_cons, filter_nil. simpl.
  case_decide; [by rewrite last_snoc|by rewrite app_nil_r].
Qed.

(** An attribute some pair names holds the converted value of the last such
    pair. *)
Lemma store_pairs_lookup_supplied (ns : gmap string (value F))
    (pairs : list (string * string)) (d v : string) :
  (∀ d' v', (d', v') ∈ pairs →
     is_Some (get_value py_int py_float (declared_type d') v')) →
  supplied pairs d = Some v →
  store_pairs py_int py_float ns pairs !! d
  = get_value py_int py_float (declared_type d) v.
Proof.
  induction pairs as [|[d' v'] pairs IH] using rev_ind; [done|].
  intros Hconv. rewrite supplied_snoc, store_pairs_snoc.
  destruct (Hconv d' v') as [x Hx]; [apply elem_of_app; right; left|].
  rewrite Hx. case_decide as Hd.
  - intros [= <-]. subst d'. by rewrite lookup_insert_eq.
  - intros Hsup. rewrite lookup_insert_ne by done.
    apply IH; [|done]. intros d'' v'' Hin. apply Hconv, elem_of_app. by left.
Qed.

Lemma seed_not_required : "seed" ∉ required_dests.
Proof. by_evaluation. Qed.

Lemma initial_namespace_seed :
  initial_namespace P !! "seed" = Some (VInt 42).
Proof. vm_compute. reflexivity. Qed.

(** C7.  [train_parser] applied to a fresh [ArgumentParser()] returns, and on
    the parser it leaves:
    - an argument list that supplies the fifteen required arguments as
      [--name value], each value one that argparse reads as an argument, that
      its declared type converts and that, for [dset_name], is a key of
      [DSET_OPTS], and that has no [--seed], is parsed into a namespace in
      which [seed] is 42 and every supplied argument holds its (last) value
      converted by its declared type;
    - an argument list in which no string names some required argument makes
      [parse_args] exit. *)
Theorem train_parser_parse_args :
  train_parser keys ArgumentParser = Added P
  ∧ (∀ pairs : list (string * string),
       (∀ d, d ∈ required_dests → d ∈ pairs.*1) →
       (∀ d v, (d, v) ∈ pairs →
          d ∈ required_dests ∧ acceptable py_int py_float keys d v) →
       ∃ ns,
         parse_args py_int py_float P (argv_of pairs) = Parsed ns
         ∧ ns !! "seed" = Some (VInt 42)
         ∧ ∀ d v, supplied pairs d = Some v →
             ns !! d = get_value py_int py_float (declared_type d) v)
  ∧ (∀ (args : list string) (d : string),
       d ∈ required_dests →
       (∀ s, s ∈ args → ¬ names_dest P s d) →
       parse_args py_int py_float P args = SystemExit).
Proof.
  split; [apply train_parser_fresh|]. split.
  - intros pairs Hall Hpairs.
    exists (store_pairs py_int py_float (initial_namespace P) pairs).
    split; [|split].
    + unfold parse_args. rewrite consume_pairs by done.
      apply consume_finish. intros d Hd.
      apply elem_of_union. left. apply elem_of_list_to_set. by apply Hall.
    + rewrite store_pairs_lookup_other; [apply initial_namespace_seed|].
      intros [[d v] [Hd Hin]]%list_elem_of_fmap. simpl in Hd. subst d.
      destruct (Hpairs _ _ Hin) as [Hseed _]. by apply seed_not_required in Hseed.
    + intros d v Hsup. apply store_pairs_lookup_supplied; [|done].
      intros d' v' Hin. by destruct (Hpairs d' v' Hin) as [_ (_ & Hconv & _)].
  - intros args d Hd Hmissing.
    destruct (required_dests_actions d Hd) as (a & Ha & Hreq & Hdest).
    apply (parse_args_missing_required py_int py_float P args a Ha Hreq).
    by rewrite Hdest.
Qed.

End train_parser_facts.

(** *** Strings that are read as values *)

Section value_strings.

Import Argparse BaseModel.

Context {F : Type}.

(** A string that does not begin with a dash is read as an argument, by
    every parser. *)
Lemma classify_no_leading_dash (p : @Parser F) (v : string) :
  (∀ r, v ≠ String "-" r) → classify p v = Positional.
Proof.
  intros Hv. unfold classify.
  rewrite bool_decide_false by apply Hv.
  destruct v as [|c r]; [done|]. simpl.
  destruct (Ascii.eqb_spec c "-") as [->|Hc]; [by destruct (Hv r)|done].
Qed.

Lemma negative_number_like_head (v : string) :
  Str.negative_number_like v = true →
  ∃ c r, v = String "-" (String c r) ∧ (Str.is_digit c = true ∨ c = "."%char).
Proof.
  destruct v as [|c0 r]; [discriminate|].
  destruct c0 as [[] [] [] [] [] [] [] []]; try discriminate.
  destruct r as [|c r]; [discriminate|].
  intros Hv. exists c, r. split; [done|].
  destruct (Str.is_digit c) eqn:Hc; [by left|right].
  simpl in Hv. destruct r as [|c' r'].
  - destruct (Ascii.eqb c "010"); [discriminate|].
    simpl in Hv. rewrite Hc in Hv. simpl in Hv.
    destruct c as [[] [] [] [] [] [] [] []]; try discriminate; reflexivity.
  - simpl in Hv. rewrite Hc in Hv. simpl in Hv.
    destruct c as [[] [] [] [] [] [] [] []]; try discriminate; reflexivity.
Qed.


(** A negative numeral is read as an argument by the trained parser, none of
    whose option strings looks like one. *)
Lemma classify_negative_number (keys : list string) (v : string) :
  Str.negative_number_like v = true →
  classify (@trained_parser F keys) v = Positional.
Proof.
  intros Hv.
  destruct (negative_number_like_head v Hv) as (c & r & -> & Hc).
  unfold classify. rewrite bool_decide_false.
  2:{ intros [= -> _]. by destruct Hc. }
  unfold parse_optional.
  assert (Hnone : ∀ o', option_string_action (@trained_parser F keys)
                          (String "-" (String c o')) = None).
  { intros o'. destruct Hc as [Hc| ->].
    - destruct c as [[] [] [] [] [] [] [] []]; try discriminate Hc;
        vm_compute; reflexivity.
    - vm_compute. reflexivity. }
  assert (Htuples : get_option_tuples (@trained_parser F keys)
                      (String "-" (String c r)) = []).
  { destruct Hc as [Hc| ->].
    - destruct c as [[] [] [] [] [] [] [] []]; try discriminate Hc;
        vm_compute; reflexivity.
    - vm_compute. reflexivity. }
  assert (Hsplit : ∀ o e, Str.split_eq (String "-" (String c r)) = Some (o, e) →
                          ∃ o', o = String "-" (String c o')).
  { intros o e. simpl.
    assert (Ascii.eqb c "=" = false) as ->
      by (destruct Hc as [Hc| ->];
          [destruct c as [[] [] [] [] [] [] [] []]; try discriminate Hc|]; reflexivity).
    destruct (Str.split_eq r) as [[a b]|]; [|discriminate].
    intros [= <- _]. by exists a. }
  simpl Ascii.eqb. simpl negb. cbv iota.
  rewrite Hnone. simpl String.length. simpl Nat.eqb. cbv iota.
  destruct (Str.split_eq (String "-" (String c r))) as [[o e]|] eqn:Hs.
  - destruct (Hsplit o e eq_refl) as [o' ->]. rewrite Hnone.
    change ((λ a : Action F, (a, e)) <$> None) with (@None (Action F * string)).
    cbv iota. rewrite Htuples, Hv. reflexivity.
  - rewrite Htuples, Hv. reflexivity.
Qed.

End value_strings.

(** *** The docstring's example, and three lists the parser refuses *)

(** Each of these lists supplies the fifteen required arguments and has no
    [--seed], and [parse_args] exits on it: the dataset name is not a key of
    [DSET_OPTS]; the batch size is not a numeral [int] converts; the
    experiment name begins with a dash, so argparse reads it as an option
    string. *)
Lemma parse_args_rejects_supplied_values :
  (BaseModel.docstring_pairs_with "no-such-dataset" "32" "my_exp").*1
    = BaseModel.required_dests
  ∧ (BaseModel.docstring_pairs_with "wiki-text-2" "thirty-two" "my_exp").*1
    = BaseModel.required_dests
  ∧ (BaseModel.docstring_pairs_with "wiki-text-2" "32" "-x").*1
    = BaseModel.required_dests
  ∧ (∀ (F : Type) (py_int : string → option Z) (py_float : string → option F)
       (keys : list string),
       "no-such-dataset" ∉ keys →
       Argparse.parse_args py_int py_float (BaseModel.trained_parser keys)
         (BaseModel.argv_of
            (BaseModel.docstring_pairs_with "no-such-dataset" "32" "my_exp"))
       = Argparse.SystemExit)
  ∧ (∀ (F : Type) (py_int : string → option Z) (py_float : string → option F)
       (keys : list string),
       py_int "thirty-two" = None →
       Argparse.parse_args py_int py_float (BaseModel.trained_parser keys)
         (BaseModel.argv_of
            (BaseModel.docstring_pairs_with "wiki-text-2" "thirty-two" "my_exp"))
       = Argparse.SystemExit)
  ∧ (∀ (F : Type) (py_int : string → option Z) (py_float : string → option F)
       (keys : list string),
       Argparse.parse_args py_int py_float (BaseModel.trained_parser keys)
         (BaseModel.argv_of
            (BaseModel.docstring_pairs_with "wiki-text-2" "32" "-x"))
       = Argparse.SystemExit).
Proof.
  do 3 (split; [reflexivity|]). split; [|split].
  - intros F py_int py_float keys Hkeys.
    apply (parse_args_unacceptable py_int py_float keys
             (take 4 (BaseModel.docstring_pairs_with "no-such-dataset" "32" "my_exp"))
             (drop 5 (BaseModel.docstring_pairs_with "no-such-dataset" "32" "my_exp"))
             "dset_name" "no-such-dataset").
    + intros d v Hin.
      repeat (apply elem_of_cons in Hin as [[= -> _]|Hin]; [by_evaluation|]).
      by apply elem_of_nil in Hin.
    + by_evaluation.
    + intros (_ & _ & Hin). by apply Hkeys, Hin.
  - intros F py_int py_float keys Hint.
    apply (parse_args_unacceptable py_int py_float keys []
             (drop 1 (BaseModel.docstring_pairs_with "wiki-text-2" "thirty-two" "my_exp"))
             "batch_size" "thirty-two").
    + intros d v Hin. by apply elem_of_nil in Hin.
    + by_evaluation.
    + intros (_ & [x Hx] & _).
      change (BaseModel.declared_type "batch_size") with Argparse.TInt in Hx.
      simpl in Hx. rewrite Hint in Hx. discriminate.
  - intros F py_int py_float keys.
    apply (parse_args_unacceptable py_int py_float keys
             (take 6 (BaseModel.docstring_pairs_with "wiki-text-2" "32" "-x"))
             (drop 7 (BaseModel.docstring_pairs_with "wiki-text-2" "32" "-x"))
             "exp_name" "-x").
    + intros d v Hin.
      repeat (apply elem_of_cons in Hin as [[= -> _]|Hin]; [by_evaluation|]).
      by apply elem_of_nil in Hin.
    + by_evaluation.
    + intros (Hclass & _). vm_compute in Hclass. discriminate.
Qed.

Lemma docstring_pairs_acceptable (d v : string) :
  (d, v) ∈ BaseModel.docstring_pairs →
  d ∈ BaseModel.required_dests
  ∧ BaseModel.acceptable BaseModel.example_int BaseModel.example_float
      BaseModel.example_DSET_OPTS_keys d v.
Proof.
  intros Hin. unfold BaseModel.docstring_pairs, BaseModel.docstring_pairs_with in Hin.
  repeat (apply elem_of_cons in Hin as [[= -> ->]|Hin];
          [split;
           [by_evaluation
           |split; [vm_compute; reflexivity
                   |split; [vm_compute; eauto
                           |intros Hd; try discriminate Hd; by_evaluation]]]|]).
  by apply elem_of_nil in Hin.
Qed.

Lemma docstring_pairs_without_wd (s : string) :
  s ∈ BaseModel.argv_of (take 14 BaseModel.docstring_pairs) →
  ¬ Argparse.names_dest
      (@BaseModel.trained_parser Q BaseModel.example_DSET_OPTS_keys) s "wd".
Proof.
  intros Hin (a & e & Hclass & Hdest).
  vm_compute in Hin.
  repeat (apply elem_of_cons in Hin as [->|Hin];
          [vm_compute in Hclass;
           first [discriminate Hclass
                 |injection Hclass as <- <-; vm_compute in Hdest; discriminate Hdest]|]).
  by apply elem_of_nil in Hin.
Qed.

(** The example of the docstring: the namespace it asserts, and the exit
    once [--wd] and its value are dropped from the list. *)
Lemma train_parser_docstring_example :
  (∃ ns,
     Argparse.parse_args BaseModel.example_int BaseModel.example_float
       (BaseModel.trained_parser BaseModel.example_DSET_OPTS_keys)
       (BaseModel.argv_of BaseModel.docstring_pairs) = Argparse.Parsed ns
     ∧ ns !! "seed" = Some (Argparse.VInt 42)
     ∧ ns !! "batch_size" = Some (Argparse.VInt 32)
     ∧ ns !! "beta1" = Some (Argparse.VFloat 0.9%Q)
     ∧ ns !! "beta2" = Some (Argparse.VFloat 0.99%Q)
     ∧ ns !! "ckpt_step" = Some (Argparse.VInt 1000)
     ∧ ns !! "dset_name" = Some (Argparse.VStr "wiki-text-2")
     ∧ ns !! "eps" = Some (Argparse.VFloat 1e-8%Q)
     ∧ ns !! "exp_name" = Some (Argparse.VStr "my_exp")
     ∧ ns !! "log_step" = Some (Argparse.VInt 200)
     ∧ ns !! "lr" = Some (Argparse.VFloat 1e-4%Q)
     ∧ ns !! "max_norm" = Some (Argparse.VFloat 1%Q)
     ∧ ns !! "max_seq_len" = Some (Argparse.VInt (-1))
     ∧ ns !! "n_epoch" = Some (Argparse.VInt 10)
     ∧ ns !! "tknzr_exp_name" = Some (Argparse.VStr "my_tknzr_exp")
     ∧ ns !! "ver" = Some (Argparse.VStr "train")
     ∧ ns !! "wd" = Some (Argparse.VFloat 1e-2%Q))
  ∧ Argparse.parse_args BaseModel.example_int BaseModel.example_float
      (BaseModel.trained_parser BaseModel.example_DSET_OPTS_keys)
      (BaseModel.argv_of (take 14 BaseModel.docstring_pairs))
    = Argparse.SystemExit.
Proof.
  destruct (train_parser_parse_args BaseModel.example_int BaseModel.example_float
              BaseModel.example_DSET_OPTS_keys) as (_ & Hparsed & Hexit).
  split.
  - destruct (Hparsed BaseModel.docstring_pairs) as (ns & Hns & Hseed & Hvalues).
    + intros d Hd. exact Hd.
    + apply docstring_pairs_acceptable.
    + exists ns. split; [exact Hns|]. split; [exact Hseed|].
      repeat split.
      * exact (Hvalues "batch_size" "32" eq_refl).
      * exact (Hvalues "beta1" "0.9" eq_refl).
      * exact (Hvalues "beta2" "0.99" eq_refl).
      * exact (Hvalues "ckpt_step" "1000" eq_refl).
      * exact (Hvalues "dset_name" "wiki-text-2" eq_refl).
      * exact (Hvalues "eps" "1e-8" eq_refl).
      * exact (Hvalues "exp_name" "my_exp" eq_refl).
      * exact (Hvalues "log_step" "200" eq_refl).
      * exact (Hvalues "lr" "1e-4" eq_refl).
      * exact (Hvalues "max_norm" "1" eq_refl).
      * exact (Hvalues "max_seq_len" "-1" eq_refl).
      * exact (Hvalues "n_epoch" "10" eq_refl).
      * exact (Hvalues "tknzr_exp_name" "my_tknzr_exp" eq_refl).
      * exact (Hvalues "ver" "train" eq_refl).
      * exact (Hvalues "wd" "1e-2" eq_refl).
  - apply (Hexit _ "wd").
    + by_evaluation.
    + apply docstring_pairs_without_wd.
Defined.

(** ** More on the registry: what the dicts hold under any naming *)

Section registry_more.

Import Registry PrivateModels.

Variable model_name : model_class → string.

(** In a list without repetition, of two elements that satisfy [P] the
    earlier one is not the last to satisfy it. *)
Lemma last_filter_not_earlier {A : Type} (P : A → Prop) `{!∀ x, Decision (P x)}
    (l : list A) (i j : nat) (x y : A) :
  NoDup l → (i < j)%nat → l !! i = Some x → l !! j = Some y → P y →
  last (filter P l) ≠ Some x.
Proof.
  intros Hnd Hij Hi Hj Hy Hlast.
  rewrite <- (take_drop_middle l j y Hj) in Hlast, Hnd.
  rewrite filter_app, filter_cons_True in Hlast by done.
  rewrite last_app_cons in Hlast.
  apply last_Some_elem_of in Hlast.
  assert (Hx : x ∈ take j l)
    by (apply list_elem_of_lookup; exists i; by rewrite lookup_take_lt).
  apply NoDup_app in Hnd as (_ & Hdisj & _).
  apply (Hdisj x Hx).
  apply elem_of_cons in Hlast as [->|Hlast]; [left|right].
  by apply list_elem_of_filter in Hlast as [_ ?].
Qed.

Lemma ALL_MODELS_NoDup : NoDup ALL_MODELS.
Proof. by_evaluation. Qed.

(** X1.  Whatever the names are: an entry of [MODEL_OPTS] maps a name to a
    class of [ALL_MODELS] that carries this name, and a name without entry
    is the name of no class of [ALL_MODELS]. *)
Theorem MODEL_OPTS_entries (k : string) :
  match MODEL_OPTS model_name !! k with
  | Some M => M ∈ ALL_MODELS ∧ model_name M = k
  | None => ∀ M, M ∈ ALL_MODELS → model_name M ≠ k
  end.
Proof.
  unfold MODEL_OPTS. rewrite dict_comprehension_lookup.
  destruct (last (filter (λ m, model_name m = k) ALL_MODELS)) as [M|] eqn:Hlast.
  - apply last_Some_elem_of in Hlast. by apply list_elem_of_filter in Hlast as [? ?].
  - apply last_None in Hlast. intros M HM Hk.
    by apply (filter_nil_not_elem_of _ _ M Hlast).
Qed.

(** X2.  When two classes of [ALL_MODELS] carry the same name, the one that
    comes first in the list is not what [MODEL_OPTS] holds under that name:
    the later store replaced it. *)
Theorem MODEL_OPTS_later_class_wins (i j : nat) (M M' : model_class) :
  (i < j)%nat → ALL_MODELS !! i = Some M → ALL_MODELS !! j = Some M' →
  model_name M = model_name M' →
  MODEL_OPTS model_name !! model_name M ≠ Some M.
Proof.
  intros Hij Hi Hj Hname. unfold MODEL_OPTS. rewrite dict_comprehension_lookup.
  by apply (last_filter_not_earlier _ ALL_MODELS i j M M' ALL_MODELS_NoDup).
Qed.

(** The keys of [PRIVA_MODELS] are the names of the three residual models. *)
Lemma PRIVA_MODELS_dom :
  dom (PRIVA_MODELS model_name)
  = {[model_name ResRNNModel; model_name ResLSTMModel; model_name ResGRUModel]}.
Proof.
  unfold PRIVA_MODELS. rewrite !dom_insert_L, dom_empty_L.
  by rewrite (right_id_L ∅ (∪)), !(assoc_L (∪)).
Qed.

(** X3.  Whatever the names are, every key of [PRIVA_MODELS] is a key of
    [MODEL_OPTS]: private models are listed for registered names only. *)
Theorem PRIVA_MODELS_keys_registered :
  dom (PRIVA_MODELS model_name) ⊆ dom (MODEL_OPTS model_name).
Proof.
  rewrite PRIVA_MODELS_dom. unfold MODEL_OPTS. rewrite dict_comprehension_dom.
  intros k Hk. apply elem_of_list_to_set, list_elem_of_fmap.
  apply elem_of_union in Hk as [Hk|Hk]; [apply elem_of_union in Hk as [Hk|Hk]|];
    apply elem_of_singleton in Hk; subst k;
    eexists; (split; [reflexivity|by_evaluation]).
Qed.

(** Distinct names tell the classes apart. *)
Lemma model_name_inj (M M' : model_class) :
  NoDup (model_name <$> ALL_MODELS) → model_name M = model_name M' → M = M'.
Proof.
  unfold ALL_MODELS. rewrite !fmap_cons, fmap_nil.
  rewrite !NoDup_cons, !not_elem_of_cons.
  intros Hnd Heq. destruct M, M'; try reflexivity; exfalso;
    (rewrite Heq in Hnd || rewrite <- Heq in Hnd); tauto.
Qed.

(** X4.  With pairwise distinct names, [PRIVA_MODELS] holds under the name of
    each residual model the one block it is built from, and nothing under
    the name of any other model. *)
Theorem PRIVA_MODELS_lookup (M : model_class) :
  NoDup (model_name <$> ALL_MODELS) →
  PRIVA_MODELS model_name !! model_name M = (λ b, [b]) <$> private_block M.
Proof.
  intros Hnd. unfold PRIVA_MODELS.
  assert (Hne : ∀ M', M' ≠ M → model_name M' ≠ model_name M)
    by (intros M' Hne Heq; by apply Hne, model_name_inj).
  destruct M; simpl;
    repeat first [rewrite lookup_insert_eq; reflexivity
                 |rewrite lookup_insert_ne by (by apply Hne)];
    apply lookup_empty.
Qed.

End registry_more.

Lemma MODEL_OPTS_later_class_wins_colliding :
  Registry.MODEL_OPTS PrivateModels.colliding_model_name !! "RNN"
  ≠ Some Registry.RNNModel.
Proof.
  apply (MODEL_OPTS_later_class_wins PrivateModels.colliding_model_name 2 4
           Registry.RNNModel Registry.ResRNNModel).
  - lia.
  - reflexivity.
  - reflexivity.
  - reflexivity.
Defined.

Lemma PRIVA_MODELS_lookup_sample :
  PrivateModels.PRIVA_MODELS Registry.sample_model_name !! "res-LSTM"
  = Some [PrivateModels.ResLSTMBlock].
Proof.
  apply (PRIVA_MODELS_lookup Registry.sample_model_name Registry.ResLSTMModel).
  by_evaluation.
Defined.

(** ** More on the argument parser: invariants of the parsing loop *)

Section argparse_more.

Import Argparse.

Context {F : Type}.
Variable py_int : string → option Z.
Variable py_float : string → option F.

Lemma option_string_action_elem (p : @Parser F) (o : string) (a : Action F) :
  option_string_action p o = Some a → a ∈ p ∧ o ∈ option_strings a.
Proof.
  unfold option_string_action. intros Hhead.
  apply head_Some_elem_of in Hhead. by apply list_elem_of_filter in Hhead as [? ?].
Qed.

Lemma get_option_tuples_elem (p : @Parser F) (s : string) (a : Action F)
    (e : option string) :
  (a, e) ∈ get_option_tuples p s → a ∈ p.
Proof.
  unfold get_option_tuples.
  destruct s as [|c0 s']; [intros Hin; by apply elem_of_nil in Hin|].
  destruct (Ascii.eqb_spec c0 "-") as [->|Hc0].
  2:{ destruct c0 as [[] [] [] [] [] [] [] []];
        first [by destruct Hc0|intros Hin; by apply elem_of_nil in Hin]. }
  destruct s' as [|c1 r]; [intros Hin; by apply elem_of_nil in Hin|].
  destruct (Ascii.eqb_spec c1 "-") as [->|Hc1].
  - destruct (Str.split_eq _) as [[o' e']|];
      intros (o & _ & Ho)%list_elem_of_omap;
      destruct (Str.startswith o _); try discriminate;
      destruct (option_string_action p o) as [a'|] eqn:Ha'; try discriminate;
      injection Ho as <- _; by apply option_string_action_elem in Ha' as [? _].
  - assert (Hbranch :
      (a, e) ∈ omap (λ o, if bool_decide (o = String "-" (String c1 EmptyString))
                          then (λ a, (a, Some r)) <$> option_string_action p o
                          else if Str.startswith o (String "-" (String c1 r))
                          then (λ a, (a, None)) <$> option_string_action p o
                          else None) (registered_option_strings p) → a ∈ p).
    { intros (o & _ & Ho)%list_elem_of_omap.
      destruct (option_string_action p o) as [a'|] eqn:Ha';
        repeat case_match; try discriminate;
        injection Ho as <- _; by apply option_string_action_elem in Ha' as [? _]. }
    destruct c1 as [[] [] [] [] [] [] [] []]; try exact Hbranch. by destruct Hc1.
Qed.

(** An argument string is only ever read as an action of the parser. *)
Lemma classify_Optional_elem (p : @Parser F) (s : string) (a : Action F)
    (e : option string) :
  classify p s = Optional a e → a ∈ p.
Proof.
  unfold classify. case_bool_decide; [discriminate|].
  unfold parse_optional. destruct s as [|c r]; [discriminate|].
  destruct (negb (Ascii.eqb c "-")); [discriminate|].
  destruct (option_string_action p (String c r)) as [a'|] eqn:Ha'.
  { intros [= <- _]. by apply option_string_action_elem in Ha' as [? _]. }
  destruct (String.length (String c r) =? 1)%nat; [discriminate|].
  assert (Htuples :
    match get_option_tuples p (String c r) with
    | [] =>
        if Str.negative_number_like (String c r)
           && negb (has_negative_number_optionals p)
        then Positional
        else if Str.contains " " (String c r) then Positional else Unrecognized
    | [(a0, e0)] => Optional a0 e0
    | _ :: _ :: _ => Ambiguous
    end = Optional a e → a ∈ p).
  { destruct (get_option_tuples p (String c r)) as [|[a1 e1] [|? ?]] eqn:Ht;
      try discriminate.
    - destruct (Str.negative_number_like _ && _); [discriminate|].
      destruct (Str.contains _ _); discriminate.
    - intros [= <- <-]. apply (get_option_tuples_elem p (String c r) a1 e1).
      rewrite Ht. left. }
  destruct (Str.split_eq (String c r)) as [[o e']|]; [|exact Htuples].
  destruct ((λ a0 : Action F, (a0, e')) <$> option_string_action p o)
    as [[a2 e2]|] eqn:Ho; [|exact Htuples].
  intros [= <- _]. apply fmap_Some in Ho as (a3 & Ha3 & [= -> _]).
  by apply option_string_action_elem in Ha3 as [? _].
Qed.

(** The rule of the loop: a property of the namespace and of the set of seen
    destinations that every store keeps, holds at the end of a successful
    parse, when no required action is missing any more. *)
Lemma consume_invariant (p : @Parser F) (args0 : list string)
    (I : gmap string (value F) → gset string → Prop) :
  (∀ ns seen s a e v x,
     I ns seen → s ∈ args0 → classify p s = Optional a e → kind a = Store →
     get_values py_int py_float a v = Some x →
     I (<[dest a := x]> ns) ({[dest a]} ∪ seen)) →
  ∀ (n : nat) (args : list string) (ns : gmap string (value F))
    (seen : gset string) (ns' : gmap string (value F)),
    (length args ≤ n)%nat → (∀ s, s ∈ args → s ∈ args0) → I ns seen →
    consume py_int py_float p args ns seen = Parsed ns' →
    ∃ seen', I ns' seen' ∧ missing_required p seen' = [].
Proof.
  intros Hstore. induction n as [|n IH]; intros args ns seen ns' Hlen Hsub HI Hparsed.
  - destruct args; [|simpl in Hlen; lia].
    rewrite consume_nil in Hparsed. exists seen.
    destruct (missing_required p seen); [|discriminate].
    injection Hparsed as <-. by split.
  - destruct args as [|s rest].
    { apply (IH [] ns seen ns'); [simpl; lia|done..]. }
    simpl in Hlen, Hparsed.
    destruct (classify p s) as [|a e| | |] eqn:Hs; try discriminate.
    destruct (kind a) eqn:Hk; [|discriminate].
    assert (Hs0 : s ∈ args0) by (apply Hsub; left).
    destruct e as [v|].
    + destruct (get_values py_int py_float a v) as [x|] eqn:Hx; [|discriminate].
      apply (IH rest (<[dest a := x]> ns) ({[dest a]} ∪ seen) ns');
        [lia| |by apply (Hstore ns seen s a (Some v) v x)|done].
      intros s' Hs'. apply Hsub. by right.
    + destruct rest as [|v rest']; [discriminate|].
      destruct (classify p v); try discriminate.
      destruct (get_values py_int py_float a v) as [x|] eqn:Hx; [|discriminate].
      apply (IH rest' (<[dest a := x]> ns) ({[dest a]} ∪ seen) ns');
        [simpl in Hlen; lia| |by apply (Hstore ns seen s a None v x)|done].
      intros s' Hs'. apply Hsub. by do 2 right.
Qed.

(** A string that [classify] reads neither as an argument nor as an option
    of a storing action makes the loop exit, wherever it stands. *)
Lemma consume_stray (p : @Parser F) (n : nat) :
  ∀ (args : list string) (ns : gmap string (value F)) (seen : gset string)
    (s : string),
    (length args ≤ n)%nat → s ∈ args → TrainParser.stray p s →
    consume py_int py_float p args ns seen = SystemExit.
Proof.
  unfold TrainParser.stray.
  induction n as [|n IH]; intros args ns seen s Hlen Hin Hstray.
  - destruct args; [by apply elem_of_nil in Hin|simpl in Hlen; lia].
  - destruct args as [|s0 rest]; [by apply elem_of_nil in Hin|].
    simpl in Hlen. simpl.
    destruct (classify p s0) as [|a e| | |] eqn:Hs0; try reflexivity.
    destruct (kind a) eqn:Hk; [|reflexivity].
    apply elem_of_cons in Hin as [->|Hin].
    { rewrite Hs0, Hk in Hstray. discriminate. }
    destruct e as [v|].
    + destruct (get_values py_int py_float a v); [|reflexivity].
      apply (IH rest _ _ s); [lia|done|done].
    + destruct rest as [|v rest']; [reflexivity|].
      destruct (classify p v) eqn:Hv; try reflexivity.
      destruct (get_values py_int py_float a v); [|reflexivity].
      apply elem_of_cons in Hin as [->|Hin].
      { by rewrite Hv in Hstray. }
      apply (IH rest' _ _ s); [simpl in Hlen; lia|done|done].
Qed.

End argparse_more.

(** ** More on [train_parser]: conflicts, and every parse of its parser *)

Section train_parser_more.

Import Argparse BaseModel TrainParser.

Context {F : Type}.
Variable py_int : string → option Z.
Variable py_float : string → option F.
Variable keys : list string.

Local Abbreviation P := (@trained_parser F keys).

(** *** Registering the arguments *)

Lemma registered_option_strings_snoc (p : @Parser F) (a : Action F) :
  registered_option_strings (p ++ [a])
  = registered_option_strings p ++ option_strings a.
Proof.
  unfold registered_option_strings. rewrite bind_app. simpl.
  by rewrite app_nil_r.
Qed.

Lemma bind_add_ext {A B : Type} (r : add_result A) (k1 k2 : A → add_result B) :
  (∀ x, k1 x = k2 x) → bind_add r k1 = bind_add r k2.
Proof. intros Hk. destruct r; [apply Hk|reflexivity]. Qed.

Lemma bind_add_Added {A : Type} (r : add_result A) :
  bind_add r (λ x, Added x) = r.
Proof. by destruct r. Qed.

(** The body of [train_parser] is its table of calls, run in order. *)
Lemma train_parser_as_specs (p : @Parser F) :
  train_parser keys p = add_arguments (train_specs keys) p.
Proof.
  unfold train_parser, train_specs. simpl add_arguments.
  do 15 (apply bind_add_ext; intros ?).
  symmetry. apply bind_add_Added.
Qed.

Lemma filter_ext_elem {A : Type} (P1 P2 : A → Prop)
    `{!∀ x, Decision (P1 x), !∀ x, Decision (P2 x)} (l : list A) :
  (∀ x, x ∈ l → P1 x ↔ P2 x) → filter P1 l = filter P2 l.
Proof.
  induction l as [|x l IH]; intros Hiff; [done|].
  rewrite !filter_cons, IH by (intros y Hy; apply Hiff; by right).
  destruct (decide (P1 x)) as [H1|H1], (decide (P2 x)) as [H2|H2]; try done.
  - destruct H2. apply Hiff; [left|done].
  - destruct H1. apply Hiff; [left|done].
Qed.

(** The calls of a table whose option strings differ from one another: the
    first one already registered raises, and without any the actions are
    appended in order. *)
Lemma add_arguments_spec (specs : list (arg_spec F)) :
  ∀ p : @Parser F,
    NoDup (spec_option <$> specs) →
    add_arguments specs p
    = match head (filter (λ o, o ∈ registered_option_strings p)
                         (spec_option <$> specs)) with
      | Some o => ArgumentError o
      | None => Added (p ++ (action_of_spec <$> specs))
      end.
Proof.
  induction specs as [|sp specs IH]; intros p Hnd.
  - simpl. by rewrite app_nil_r.
  - rewrite fmap_cons in Hnd. apply NoDup_cons in Hnd as [Hfresh Hnd].
    rewrite fmap_cons, filter_cons. simpl add_arguments. unfold add_argument.
    case_bool_decide as Hin.
    + rewrite decide_True by done. reflexivity.
    + rewrite decide_False by done. simpl bind_add.
      rewrite (IH _ Hnd).
      assert (Hsame :
        filter (λ o, o ∈ registered_option_strings
                           (p ++ [action_of_spec sp])) (spec_option <$> specs)
        = filter (λ o, o ∈ registered_option_strings p) (spec_option <$> specs)).
      { apply filter_ext_elem. intros o Ho.
        rewrite registered_option_strings_snoc, elem_of_app. simpl.
        rewrite list_elem_of_singleton. split; [|by left].
        intros [?| ->]; [done|]. by destruct Hfresh. }
      unfold action_of_spec in Hsame |- *. rewrite Hsame.
      destruct (head _); [reflexivity|].
      by rewrite <- app_assoc.
Qed.

Lemma train_option_strings_NoDup : NoDup (@train_option_strings F keys).
Proof. by_evaluation. Qed.

(** The calls of [train_parser] on a list of actions whose conflicts are
    errors. *)
Lemma train_parser_first_conflict (p : @Parser F) :
  train_parser keys p
  = match head (filter (λ o, o ∈ registered_option_strings p)
                       (@train_option_strings F keys)) with
    | Some o => ArgumentError o
    | None => Added (p ++ train_actions keys)
    end.
Proof.
  rewrite train_parser_as_specs.
  apply add_arguments_spec, train_option_strings_NoDup.
Qed.

(** X5.  On a parser made by [ArgumentParser()] with its default settings,
    to which long options have been added: [train_parser] raises
    [ArgumentError] exactly when the parser already registers one of its
    sixteen option strings, naming the first such string in the order of its
    calls; otherwise it returns, the actions the parser had kept in place
    and its sixteen actions appended. *)
Theorem train_parser_conflicts (p : @Parser F) :
  default_built p →
  train_parser keys p
  = match head (filter (λ o, o ∈ registered_option_strings p)
                       (@train_option_strings F keys)) with
    | Some o => ArgumentError o
    | None => Added (p ++ train_actions keys)
    end.
Proof. intros _. apply train_parser_first_conflict. Qed.

(** X6.  On a parser made by [ArgumentParser()] with its default settings,
    to which long options have been added, [train_parser] cannot be applied
    twice: once it has returned, it raises [ArgumentError] for
    [--batch_size]. *)
Theorem train_parser_twice (p p' : @Parser F) :
  default_built p →
  train_parser keys p = Added p' →
  train_parser keys p' = ArgumentError "--batch_size".
Proof.
  intros _. rewrite !train_parser_as_specs.
  rewrite !add_arguments_spec by apply train_option_strings_NoDup.
  destruct (head (filter (λ o, o ∈ registered_option_strings p) _));
    [discriminate|].
  intros [= <-].
  change (spec_option <$> @train_specs F keys)
    with ("--batch_size" :: tail (spec_option <$> @train_specs F keys)).
  rewrite filter_cons_True; [reflexivity|].
  unfold registered_option_strings. rewrite bind_app, elem_of_app. right.
  apply list_elem_of_bind. eexists. split; [|left]. left.
Qed.

(** *** The actions of the trained parser *)

Lemma trained_parser_actions :
  P = help_action :: train_actions keys.
Proof. vm_compute. reflexivity. Qed.

(** Every storing action of the parser sets one of the sixteen attributes,
    with the type of that attribute; only [dset_name] has choices. *)
Lemma trained_parser_store (a : Action F) :
  a ∈ P → kind a = Store →
  dest a ∈ attribute_dests
  ∧ type_ a = attribute_type (dest a)
  ∧ choices a = (if bool_decide (dest a = "dset_name") then Some keys else None).
Proof.
  rewrite trained_parser_actions. intros [->|Ha]%elem_of_cons Hk; [discriminate|].
  unfold train_actions, train_specs in Ha. rewrite !fmap_cons, fmap_nil in Ha.
  repeat (apply elem_of_cons in Ha as [->|Ha];
          [split; [by_evaluation|split; reflexivity]|]).
  by apply elem_of_nil in Ha.
Qed.

Lemma initial_namespace_dom :
  dom (initial_namespace P) = list_to_set attribute_dests.
Proof.
  assert (Hinit : initial_namespace P
            = list_to_map (((λ d, (d, VNone)) <$> required_dests)
                           ++ [("seed", @VInt F 42)]))
    by (vm_compute; reflexivity).
  rewrite Hinit, dom_list_to_map_L. reflexivity.
Qed.

(** What a storing action of the parser makes of an argument string. *)
Lemma get_values_set_from_argument (a : Action F) (v : string) (x : value F) :
  a ∈ P → kind a = Store →
  get_values py_int py_float a v = Some x →
  set_from_argument py_int py_float keys (dest a) x.
Proof.
  intros Ha Hk. destruct (trained_parser_store a Ha Hk) as (_ & Htype & Hch).
  unfold get_values, check_value, set_from_argument.
  destruct (bool_decide (v = "--")); [intros [= <-]; by left|].
  rewrite Htype, Hch.
  destruct (get_value py_int py_float (attribute_type (dest a)) v) as [y|] eqn:Hy;
    [|discriminate].
  destruct (decide (dest a = "dset_name")) as [Hd|Hd].
  - rewrite bool_decide_true by done.
    destruct y as [| | |s|]; try discriminate.
    destruct (decide (s ∈ keys)) as [Hs|Hs];
      [rewrite bool_decide_true by done|rewrite bool_decide_false by done; discriminate].
    intros [= <-]. right. exists v. split; [done|]. intros _.
    rewrite Hd in Hy. change (attribute_type "dset_name") with TStr in Hy.
    simpl in Hy. by injection Hy as ->.
  - rewrite bool_decide_false by done.
    intros [= <-]. right. exists v. by split.
Qed.

(** *** Every successful parse *)

(** What holds of the namespace of any successful parse: the destinations
    seen include the required ones, each was set from an argument string
    that names it, [seed] is 42 unless seen, and the attributes are the
    sixteen of the start. *)
Lemma parse_args_Parsed_inv (args : list string) (ns : gmap string (value F)) :
  parse_args py_int py_float P args = Parsed ns →
  ∃ seen : gset string,
    (∀ d, d ∈ required_dests → d ∈ seen)
    ∧ (∀ d, d ∈ seen →
         (∃ x, ns !! d = Some x ∧ set_from_argument py_int py_float keys d x)
         ∧ ∃ s, s ∈ args ∧ names_dest P s d)
    ∧ ("seed" ∉ seen → ns !! "seed" = Some (VInt 42))
    ∧ dom ns = list_to_set attribute_dests.
Proof.
  intros Hparsed. unfold parse_args in Hparsed.
  destruct (consume_invariant py_int py_float P args
    (λ ns seen,
       (∀ d, d ∈ seen →
          (∃ x, ns !! d = Some x ∧ set_from_argument py_int py_float keys d x)
          ∧ ∃ s, s ∈ args ∧ names_dest P s d)
       ∧ ("seed" ∉ seen → ns !! "seed" = Some (VInt 42))
       ∧ dom ns = list_to_set attribute_dests))
    with (n := length args) (args := args) (ns := initial_namespace P)
         (seen := (∅ : gset string)) (ns' := ns)
    as (seen & (Hset & Hseed & Hdom) & Hmissing); [|lia|done| |done|].
  - intros ns0 seen0 s a e v x (Hset & Hseed & Hdom) Hs Hclass Hk Hx.
    pose proof (classify_Optional_elem P s a e Hclass) as Ha.
    split; [|split].
    + intros d [->%elem_of_singleton|Hd]%elem_of_union.
      * split.
        -- exists x. rewrite lookup_insert_eq. split; [done|].
           by apply (get_values_set_from_argument a v).
        -- exists s. split; [done|]. by exists a, e.
      * destruct (decide (d = dest a)) as [->|Hne].
        -- split.
           ++ exists x. rewrite lookup_insert_eq. split; [done|].
              by apply (get_values_set_from_argument a v).
           ++ exists s. split; [done|]. by exists a, e.
        -- rewrite lookup_insert_ne by done. by apply Hset.
    + intros Hnot. apply not_elem_of_union in Hnot as [Hne Hnot].
      rewrite lookup_insert_ne; [by apply Hseed|].
      intros Heq. apply Hne. by apply elem_of_singleton.
    + rewrite dom_insert_L, Hdom.
      destruct (trained_parser_store a Ha Hk) as (Hd & _).
      apply set_eq. intros k.
      rewrite elem_of_union, elem_of_singleton, elem_of_list_to_set.
      split; [intros [->|?]; done|by right].
  - split; [|split].
    + intros d Hd. by apply not_elem_of_empty in Hd.
    + intros _. apply initial_namespace_seed.
    + apply initial_namespace_dom.
  - exists seen. split; [|done].
    intros d Hd. destruct (required_dests_actions (F := F) keys d Hd)
      as (a & Ha & Hreq & <-).
    destruct (decide (dest a ∈ seen)) as [|Hnot]; [done|].
    assert (Hin : a ∈ missing_required P seen)
      by (apply list_elem_of_filter; auto).
    rewrite Hmissing in Hin. by apply elem_of_nil in Hin.
Qed.

(** X7.  Whatever the argument list, the namespace of a successful parse
    has exactly the sixteen attributes: the fifteen required ones and
    [seed]; the help action leaves none. *)
Theorem parse_args_namespace_attributes (args : list string)
    (ns : gmap string (value F)) :
  parse_args py_int py_float P args = Parsed ns →
  dom ns = list_to_set attribute_dests.
Proof.
  intros Hparsed.
  by destruct (parse_args_Parsed_inv args ns Hparsed) as (seen & _ & _ & _ & Hdom).
Qed.

(** X8.  Whatever the argument list, in the namespace of a successful parse
    no required attribute is left at [None]: each holds an argument string
    converted by its declared type, a key of [DSET_OPTS] in the case of
    [dset_name], or the empty list that an explicit ['--'] leaves. *)
Theorem parse_args_namespace_values (args : list string)
    (ns : gmap string (value F)) :
  parse_args py_int py_float P args = Parsed ns →
  ∀ d, d ∈ required_dests →
    ∃ x, ns !! d = Some x ∧ x ≠ VNone
         ∧ set_from_argument py_int py_float keys d x.
Proof.
  intros Hparsed d Hd.
  destruct (parse_args_Parsed_inv args ns Hparsed) as (seen & Hreq & Hset & _).
  destruct (Hset d (Hreq d Hd)) as [(x & Hx & Hfrom) _].
  exists x. split; [done|]. split; [|done].
  destruct Hfrom as [->|(v & Hv & _)]; [done|].
  intros ->. unfold get_value in Hv.
  destruct (attribute_type d);
    [destruct (py_int v)|destruct (py_float v)|]; discriminate.
Qed.

(** X9.  Whatever the argument list, after a successful parse [seed] is 42
    when no argument string names it, and otherwise an argument string
    converted by [int] or the empty list. *)
Theorem parse_args_seed (args : list string) (ns : gmap string (value F)) :
  parse_args py_int py_float P args = Parsed ns →
  ((∀ s, s ∈ args → ¬ names_dest P s "seed") → ns !! "seed" = Some (VInt 42))
  ∧ ∃ x, ns !! "seed" = Some x
         ∧ (x = VInt 42 ∨ x = VEmptyList ∨ ∃ v z, py_int v = Some z ∧ x = VInt z).
Proof.
  intros Hparsed.
  destruct (parse_args_Parsed_inv args ns Hparsed) as (seen & _ & Hset & Hseed & _).
  destruct (decide ("seed" ∈ seen)) as [Hin|Hnot].
  - destruct (Hset "seed" Hin) as [(x & Hx & Hfrom) (s & Hs & Hname)].
    split; [intros Hmissing; by destruct (Hmissing s Hs)|].
    exists x. split; [done|]. right.
    destruct Hfrom as [->|(v & Hv & _)]; [by left|right].
    change (attribute_type "seed") with TInt in Hv. simpl in Hv.
    destruct (py_int v) as [z|] eqn:Hz; [|discriminate].
    injection Hv as <-. by exists v, z.
  - split; [intros _; by apply Hseed|].
    exists (VInt 42). split; [by apply Hseed|by left].
Qed.

(** X10.  An argument list that holds, at any place, the string ['--'], a
    help flag, an ambiguous abbreviation or an unknown option written in
    ASCII characters makes [parse_args] exit. *)
Theorem parse_args_stray (args : list string) (s : string) :
  s ∈ args → stray P s →
  (classify P s = Unrecognized → ascii_only s) →
  parse_args py_int py_float P args = SystemExit.
Proof.
  intros Hin Hstray _. unfold parse_args.
  by apply (consume_stray py_int py_float P (length args) args _ _ s).
Qed.

(** *** The namespace of a list of acceptable pairs *)

Lemma parse_args_pairs (pairs : list (string * string)) :
  (∀ d, d ∈ required_dests → d ∈ pairs.*1) →
  (∀ d v, (d, v) ∈ pairs →
     d ∈ required_dests ∧ acceptable py_int py_float keys d v) →
  parse_args py_int py_float P (argv_of pairs)
  = Parsed (store_pairs py_int py_float (initial_namespace P) pairs).
Proof.
  intros Hall Hpairs. unfold parse_args.
  rewrite (consume_pairs py_int py_float keys pairs) by done.
  apply consume_finish. intros d Hd.
  apply elem_of_union. left. apply elem_of_list_to_set. by apply Hall.
Qed.

(** *** Values attached with [=] *)

Lemma consume_option_explicit (p : @Parser F) (s v : string) (rest : list string)
    (a : Action F) ns seen :
  classify p s = Optional a (Some v) → kind a = Store →
  consume py_int py_float p (s :: rest) ns seen
  = match get_values py_int py_float a v with
    | Some x =>
        consume py_int py_float p rest (<[dest a := x]> ns) ({[dest a]} ∪ seen)
    | None => SystemExit
    end.
Proof. intros Hs Hk. simpl. rewrite Hs, Hk. reflexivity. Qed.

(** [--d=v] is read as the action of [d] with the explicit argument [v],
    whatever [v] is. *)
Lemma classify_required_eq (d v : string) :
  d ∈ required_dests →
  ∃ a : Action F,
    classify P ("--" +:+ d +:+ "=" +:+ v) = Optional a (Some v)
    ∧ dest a = d ∧ kind a = Store ∧ type_ a = declared_type d
    ∧ choices a = if bool_decide (d = "dset_name") then Some keys else None.
Proof.
  unfold required_dests. intros Hd.
  repeat (apply elem_of_cons in Hd as [->|Hd];
          [eexists; split; [vm_compute; reflexivity|by repeat split]|]).
  by apply elem_of_nil in Hd.
Qed.

Lemma get_values_explicit (d v : string) (a : Action F) (x : value F) :
  type_ a = declared_type d →
  choices a = (if bool_decide (d = "dset_name") then Some keys else None) →
  v ≠ "--" →
  get_value py_int py_float (declared_type d) v = Some x →
  (d = "dset_name" → v ∈ keys) →
  get_values py_int py_float a v = Some x.
Proof.
  intros Htype Hch Hdd Hx Hkeys. unfold get_values, check_value.
  rewrite bool_decide_false by done. rewrite Htype, Hch, Hx.
  destruct (decide (d = "dset_name")) as [->|Hd].
  - rewrite bool_decide_true by done.
    change (declared_type "dset_name") with TStr in Hx. simpl in Hx.
    injection Hx as <-. by rewrite bool_decide_true by auto.
  - by rewrite bool_decide_false by done.
Qed.

Lemma consume_eq_pairs (pairs : list (string * string)) :
  ∀ (ns : gmap string (value F)) (seen : gset string),
    (∀ d v, (d, v) ∈ pairs →
       d ∈ required_dests ∧ v ≠ "--"
       ∧ is_Some (get_value py_int py_float (declared_type d) v)
       ∧ (d = "dset_name" → v ∈ keys)) →
    consume py_int py_float P (argv_eq_of pairs) ns seen
    = consume py_int py_float P []
        (store_pairs py_int py_float ns pairs) (list_to_set pairs.*1 ∪ seen).
Proof.
  induction pairs as [|[d v] pairs IH]; intros ns seen Hpairs.
  - change (list_to_set ([] : list (string * string)).*1 ∪ seen) with (∅ ∪ seen).
    by rewrite (left_id_L ∅ (∪)).
  - destruct (Hpairs d v) as (Hd & Hdd & [x Hx] & Hkeys); [left|].
    destruct (classify_required_eq d v Hd) as (a & Hs & Hdest & Hk & Htype & Hch).
    change (argv_eq_of ((d, v) :: pairs))
      with (("--" +:+ d +:+ "=" +:+ v) :: argv_eq_of pairs).
    rewrite (consume_option_explicit P _ v _ a) by done.
    rewrite (get_values_explicit d v a x) by done.
    rewrite Hdest, IH by (intros d' v' Hin; apply Hpairs; by right).
    by rewrite (store_pairs_cons py_int py_float ns d v pairs x Hx), (seen_cons d v).
Qed.

(** X11.  Written as single strings [--name=value], the fifteen required
    arguments are parsed whenever each value is converted by its declared
    type and, for [dset_name], is a key of [DSET_OPTS]: a value attached
    with [=] may begin with a dash.  The namespace is the one of the
    two-string spelling: [seed] is 42 and every argument holds its last
    value, converted. *)
Theorem parse_args_eq_form (pairs : list (string * string)) :
  (∀ d, d ∈ required_dests → d ∈ pairs.*1) →
  (∀ d v, (d, v) ∈ pairs →
     d ∈ required_dests ∧ v ≠ "--"
     ∧ is_Some (get_value py_int py_float (declared_type d) v)
     ∧ (d = "dset_name" → v ∈ keys)) →
  ∃ ns,
    parse_args py_int py_float P (argv_eq_of pairs) = Parsed ns
    ∧ ns !! "seed" = Some (VInt 42)
    ∧ ∀ d v, supplied pairs d = Some v →
        ns !! d = get_value py_int py_float (declared_type d) v.
Proof.
  intros Hall Hpairs.
  exists (store_pairs py_int py_float (initial_namespace P) pairs).
  split; [|split].
  - unfold parse_args. rewrite consume_eq_pairs by done.
    apply consume_finish. intros d Hd.
    apply elem_of_union. left. apply elem_of_list_to_set. by apply Hall.
  - rewrite store_pairs_lookup_other; [apply initial_namespace_seed|].
    intros [[d v] [Hd Hin]]%list_elem_of_fmap. simpl in Hd. subst d.
    destruct (Hpairs _ _ Hin) as [Hseed _]. by apply seed_not_required in Hseed.
  - intros d v Hsup. apply store_pairs_lookup_supplied; [|done].
    intros d' v' Hin. by destruct (Hpairs d' v' Hin) as (_ & _ & Hconv & _).
Qed.

(** *** The order of the arguments *)

Lemma store_pairs_Permutation (pairs pairs' : list (string * string)) :
  pairs ≡ₚ pairs' → NoDup pairs.*1 →
  ∀ ns : gmap string (value F),
    store_pairs py_int py_float ns pairs = store_pairs py_int py_float ns pairs'.
Proof.
  unfold store_pairs.
  induction 1 as [|[d v] l l' Hperm IH|[d1 v1] [d2 v2] l|l1 l2 l3 H12 IH12 H23 IH23];
    intros Hnd ns.
  - reflexivity.
  - simpl. apply IH. rewrite fmap_cons in Hnd. by apply NoDup_cons in Hnd as [_ ?].
  - simpl. rewrite !fmap_cons in Hnd.
    apply NoDup_cons in Hnd as [Hne _]. apply not_elem_of_cons in Hne as [Hne _].
    simpl in Hne. f_equal.
    destruct (get_value py_int py_float (declared_type d1) v1),
             (get_value py_int py_float (declared_type d2) v2); try reflexivity.
    by apply insert_insert_ne.
  - rewrite IH12 by done. apply IH23.
    by rewrite <- (fmap_Permutation fst _ _ H12).
Qed.

(** X12.  When no argument is given twice, the order in which the required
    arguments are supplied does not matter: two lists that supply the same
    acceptable pairs in different orders are parsed into the same
    namespace. *)
Theorem parse_args_order (pairs pairs' : list (string * string)) :
  pairs ≡ₚ pairs' → NoDup pairs.*1 →
  (∀ d, d ∈ required_dests → d ∈ pairs.*1) →
  (∀ d v, (d, v) ∈ pairs →
     d ∈ required_dests ∧ acceptable py_int py_float keys d v) →
  parse_args py_int py_float P (argv_of pairs')
  = parse_args py_int py_float P (argv_of pairs)
  ∧ ∃ ns, parse_args py_int py_float P (argv_of pairs) = Parsed ns.
Proof.
  intros Hperm Hnd Hall Hpairs.
  rewrite (parse_args_pairs pairs) by done.
  rewrite (parse_args_pairs pairs').
  - split; [|by eexists]. f_equal. symmetry. by apply store_pairs_Permutation.
  - intros d Hd. rewrite <- (fmap_Permutation fst _ _ Hperm). by apply Hall.
  - intros d v Hin. apply Hpairs. by rewrite Hperm.
Qed.

(** *** Supplying the seed *)

Lemma consume_pairs_app (pairs : list (string * string)) (rest : list string) :
  ∀ (ns : gmap string (value F)) (seen : gset string),
    (∀ d v, (d, v) ∈ pairs →
       d ∈ required_dests ∧ acceptable py_int py_float keys d v) →
    consume py_int py_float P (argv_of pairs ++ rest) ns seen
    = consume py_int py_float P rest
        (store_pairs py_int py_float ns pairs) (list_to_set pairs.*1 ∪ seen).
Proof.
  induction pairs as [|[d v] pairs IH]; intros ns seen Hpairs.
  - change (list_to_set ([] : list (string * string)).*1 ∪ seen) with (∅ ∪ seen).
    by rewrite (left_id_L ∅ (∪)).
  - destruct (Hpairs d v) as [Hd Hacc]; [left|].
    destruct (consume_pair_acceptable py_int py_float keys d v
                (argv_of pairs ++ rest) ns seen Hd Hacc) as (x & Hx & Hstep).
    rewrite argv_of_cons. simpl app. rewrite Hstep.
    rewrite IH by (intros d' v' Hin; apply Hpairs; by right).
    by rewrite (store_pairs_cons py_int py_float ns d v pairs x Hx), (seen_cons d v).
Qed.

Lemma store_pairs_lookup_insert_ne (ns : gmap string (value F))
    (pairs : list (string * string)) (k d : string) (x : value F) :
  k ≠ d →
  store_pairs py_int py_float (<[k := x]> ns) pairs !! d
  = store_pairs py_int py_float ns pairs !! d.
Proof.
  intros Hne. induction pairs as [|[d' v'] pairs IH] using rev_ind.
  - by apply lookup_insert_ne.
  - rewrite !store_pairs_snoc.
    destruct (get_value py_int py_float (declared_type d') v'); [|done].
    destruct (decide (d' = d)) as [->|Hd].
    + by rewrite !lookup_insert_eq.
    + by rewrite !lookup_insert_ne.
Qed.

Lemma store_pairs_app (ns : gmap string (value F))
    (pairs1 pairs2 : list (string * string)) :
  store_pairs py_int py_float ns (pairs1 ++ pairs2)
  = store_pairs py_int py_float (store_pairs py_int py_float ns pairs1) pairs2.
Proof. unfold store_pairs. by rewrite foldl_app. Qed.

(** X13.  With [--seed value] written anywhere between the required
    arguments, [value] being read as an argument and converted by [int], the
    parse succeeds, [seed] holds the converted value instead of 42, and the
    required arguments hold what they hold without it. *)
Theorem parse_args_seed_supplied (pairs1 pairs2 : list (string * string))
    (v : string) (z : Z) :
  (∀ d, d ∈ required_dests → d ∈ (pairs1 ++ pairs2).*1) →
  (∀ d v, (d, v) ∈ pairs1 ++ pairs2 →
     d ∈ required_dests ∧ acceptable py_int py_float keys d v) →
  classify P v = Positional → py_int v = Some z →
  ∃ ns,
    parse_args py_int py_float P
      (argv_of pairs1 ++ "--seed" :: v :: argv_of pairs2) = Parsed ns
    ∧ ns !! "seed" = Some (VInt z)
    ∧ ∀ d v', supplied (pairs1 ++ pairs2) d = Some v' →
        ns !! d = get_value py_int py_float (declared_type d) v'.
Proof.
  intros Hall Hpairs Hv Hz.
  assert (Hp1 : ∀ d v, (d, v) ∈ pairs1 →
            d ∈ required_dests ∧ acceptable py_int py_float keys d v)
    by (intros d' v' Hin; apply Hpairs, elem_of_app; by left).
  assert (Hp2 : ∀ d v, (d, v) ∈ pairs2 →
            d ∈ required_dests ∧ acceptable py_int py_float keys d v)
    by (intros d' v' Hin; apply Hpairs, elem_of_app; by right).
  assert (Hnoseed : ∀ pairs : list (string * string),
            (∀ d v, (d, v) ∈ pairs → d ∈ required_dests ∧
                                     acceptable py_int py_float keys d v) →
            "seed" ∉ pairs.*1).
  { intros pairs Hp [[d v'] [Hd Hin]]%list_elem_of_fmap. simpl in Hd. subst d.
    destruct (Hp _ _ Hin) as [Hseed _]. by apply seed_not_required in Hseed. }
  set (ns1 := store_pairs py_int py_float (initial_namespace P) pairs1).
  exists (store_pairs py_int py_float (<["seed" := VInt z]> ns1) pairs2).
  split; [|split].
  - unfold parse_args. rewrite consume_pairs_app by done. fold ns1.
    assert (Hseed : ∃ a : Action F,
              classify P "--seed" = Optional a None ∧ kind a = Store
              ∧ dest a = "seed" ∧ type_ a = TInt ∧ choices a = None)
      by (eexists; split; [vm_compute; reflexivity|by repeat split]).
    destruct Hseed as (a & Hs & Hk & Hdest & Htype & Hch).
    rewrite (consume_option_value py_int py_float P "--seed" v _ a) by done.
    rewrite Hv. unfold get_values, check_value.
    rewrite bool_decide_false
      by (by apply (classify_Positional_not_double_dash P)).
    rewrite Htype, Hch. simpl. rewrite Hz. simpl. rewrite Hdest.
    rewrite (consume_pairs py_int py_float keys pairs2) by done.
    apply consume_finish. intros d Hd.
    specialize (Hall d Hd). rewrite fmap_app, elem_of_app in Hall.
    rewrite !elem_of_union, !elem_of_list_to_set. tauto.
  - rewrite store_pairs_lookup_other by (by apply Hnoseed).
    apply lookup_insert_eq.
  - intros d v' Hsup.
    assert (Hd : "seed" ≠ d).
    { intros <-. unfold supplied in Hsup.
      apply fmap_Some in Hsup as ([d' v''] & Hlast & _).
      apply last_Some_elem_of, list_elem_of_filter in Hlast as [Hd' Hin].
      simpl in Hd'. subst d'. destruct (Hpairs _ _ Hin) as [Hseed _].
      by apply seed_not_required in Hseed. }
    rewrite store_pairs_lookup_insert_ne by done.
    unfold ns1. rewrite <- store_pairs_app.
    apply store_pairs_lookup_supplied; [|done].
    intros d' v'' Hin. by destruct (Hpairs d' v'' Hin) as [_ (_ & Hconv & _)].
Qed.

End train_parser_more.

(** *** The theorems above, on the docstring's example *)

Lemma docstring_parse :
  Argparse.parse_args BaseModel.example_int BaseModel.example_float
    (BaseModel.trained_parser BaseModel.example_DSET_OPTS_keys)
    (BaseModel.argv_of BaseModel.docstring_pairs)
  = Argparse.Parsed
      (BaseModel.store_pairs BaseModel.example_int BaseModel.example_float
         (Argparse.initial_namespace
            (BaseModel.trained_parser BaseModel.example_DSET_OPTS_keys))
         BaseModel.docstring_pairs).
Proof.
  apply parse_args_pairs.
  - intros d Hd. exact Hd.
  - apply docstring_pairs_acceptable.
Qed.

Lemma default_built_fresh {F : Type} :
  TrainParser.default_built (@Argparse.ArgumentParser F).
Proof. exists []. split; [constructor|reflexivity]. Qed.

(** A parser that already has an option [--lr]. *)
Lemma default_built_lr :
  TrainParser.default_built
    (@Argparse.ArgumentParser Q
     ++ [TrainParser.action_of_spec
           (TrainParser.mkSpec "--lr" None Argparse.VNone "Learning rate."
              false Argparse.TFloat)]).
Proof.
  exists [TrainParser.mkSpec "--lr" None Argparse.VNone "Learning rate."
            false Argparse.TFloat].
  split; [repeat constructor|reflexivity].
Qed.

Lemma train_parser_conflicts_example :
  BaseModel.train_parser BaseModel.example_DSET_OPTS_keys
    (@Argparse.ArgumentParser Q
     ++ [TrainParser.action_of_spec
           (TrainParser.mkSpec "--lr" None Argparse.VNone "Learning rate."
              false Argparse.TFloat)])
  = Argparse.ArgumentError "--lr".
Proof.
  etrans.
  - apply (train_parser_conflicts BaseModel.example_DSET_OPTS_keys).
    apply default_built_lr.
  - vm_compute. reflexivity.
Defined.

Lemma train_parser_twice_example :
  BaseModel.train_parser BaseModel.example_DSET_OPTS_keys
    (@BaseModel.trained_parser Q BaseModel.example_DSET_OPTS_keys)
  = Argparse.ArgumentError "--batch_size".
Proof.
  apply (train_parser_twice BaseModel.example_DSET_OPTS_keys
           Argparse.ArgumentParser).
  - apply default_built_fresh.
  - apply train_parser_fresh.
Defined.

Lemma parse_args_namespace_attributes_example :
  dom (BaseModel.store_pairs BaseModel.example_int BaseModel.example_float
         (Argparse.initial_namespace
            (BaseModel.trained_parser BaseModel.example_DSET_OPTS_keys))
         BaseModel.docstring_pairs)
  = list_to_set TrainParser.attribute_dests.
Proof.
  apply (parse_args_namespace_attributes BaseModel.example_int
           BaseModel.example_float BaseModel.example_DSET_OPTS_keys
           (BaseModel.argv_of BaseModel.docstring_pairs)).
  apply docstring_parse.
Defined.

Lemma parse_args_namespace_values_example :
  ∃ x,
    BaseModel.store_pairs BaseModel.example_int BaseModel.example_float
      (Argparse.initial_namespace
         (BaseModel.trained_parser BaseModel.example_DSET_OPTS_keys))
      BaseModel.docstring_pairs !! "lr" = Some x
    ∧ x ≠ Argparse.VNone
    ∧ TrainParser.set_from_argument BaseModel.example_int BaseModel.example_float
        BaseModel.example_DSET_OPTS_keys "lr" x.
Proof.
  apply (parse_args_namespace_values BaseModel.example_int
           BaseModel.example_float BaseModel.example_DSET_OPTS_keys
           (BaseModel.argv_of BaseModel.docstring_pairs)).
  - apply docstring_parse.
  - by_evaluation.
Defined.

Lemma parse_args_seed_example :
  ((∀ s, s ∈ BaseModel.argv_of BaseModel.docstring_pairs →
      ¬ Argparse.names_dest
          (@BaseModel.trained_parser Q BaseModel.example_DSET_OPTS_keys) s "seed") →
   BaseModel.store_pairs BaseModel.example_int BaseModel.example_float
     (Argparse.initial_namespace
        (BaseModel.trained_parser BaseModel.example_DSET_OPTS_keys))
     BaseModel.docstring_pairs !! "seed" = Some (Argparse.VInt 42))
  ∧ ∃ x,
      BaseModel.store_pairs BaseModel.example_int BaseModel.example_float
        (Argparse.initial_namespace
           (BaseModel.trained_parser BaseModel.example_DSET_OPTS_keys))
        BaseModel.docstring_pairs !! "seed" = Some x
      ∧ (x = Argparse.VInt 42 ∨ x = Argparse.VEmptyList
         ∨ ∃ v z, BaseModel.example_int v = Some z ∧ x = Argparse.VInt z).
Proof.
  apply (parse_args_seed BaseModel.example_int BaseModel.example_float
           BaseModel.example_DSET_OPTS_keys
           (BaseModel.argv_of BaseModel.docstring_pairs)).
  apply docstring_parse.
Defined.

Lemma parse_args_stray_example :
  Argparse.parse_args BaseModel.example_int BaseModel.example_float
    (BaseModel.trained_parser BaseModel.example_DSET_OPTS_keys)
    (BaseModel.argv_of BaseModel.docstring_pairs ++ ["--verbose"])
  = Argparse.SystemExit.
Proof.
  apply (parse_args_stray BaseModel.example_int BaseModel.example_float
           BaseModel.example_DSET_OPTS_keys _ "--verbose").
  - by_evaluation.
  - unfold TrainParser.stray. vm_compute. exact I.
  - intros _. vm_compute. exact I.
Defined.

Lemma docstring_pairs_dash_convertible (d v : string) :
  (d, v) ∈ BaseModel.docstring_pairs_with "wiki-text-2" "32" "-x" →
  d ∈ BaseModel.required_dests ∧ v ≠ "--"
  ∧ is_Some (Argparse.get_value BaseModel.example_int BaseModel.example_float
               (BaseModel.declared_type d) v)
  ∧ (d = "dset_name" → v ∈ BaseModel.example_DSET_OPTS_keys).
Proof.
  intros Hin. unfold BaseModel.docstring_pairs_with in Hin.
  repeat (apply elem_of_cons in Hin as [[= -> ->]|Hin];
          [split;
           [by_evaluation
           |split; [by_evaluation
                   |split; [vm_compute; eauto
                           |intros Hd; try discriminate Hd; by_evaluation]]]|]).
  by apply elem_of_nil in Hin.
Qed.

Lemma parse_args_eq_form_example :
  ∃ ns,
    Argparse.parse_args BaseModel.example_int BaseModel.example_float
      (BaseModel.trained_parser BaseModel.example_DSET_OPTS_keys)
      (TrainParser.argv_eq_of
         (BaseModel.docstring_pairs_with "wiki-text-2" "32" "-x"))
    = Argparse.Parsed ns
    ∧ ns !! "seed" = Some (Argparse.VInt 42)
    ∧ ns !! "exp_name" = Some (Argparse.VStr "-x").
Proof.
  destruct (parse_args_eq_form BaseModel.example_int BaseModel.example_float
              BaseModel.example_DSET_OPTS_keys
              (BaseModel.docstring_pairs_with "wiki-text-2" "32" "-x"))
    as (ns & Hns & Hseed & Hvalues).
  - intros d Hd. exact Hd.
  - apply docstring_pairs_dash_convertible.
  - exists ns. split; [exact Hns|]. split; [exact Hseed|].
    exact (Hvalues "exp_name" "-x" eq_refl).
Defined.

Lemma parse_args_order_example :
  Argparse.parse_args BaseModel.example_int BaseModel.example_float
    (BaseModel.trained_parser BaseModel.example_DSET_OPTS_keys)
    (BaseModel.argv_of (reverse BaseModel.docstring_pairs))
  = Argparse.parse_args BaseModel.example_int BaseModel.example_float
      (BaseModel.trained_parser BaseModel.example_DSET_OPTS_keys)
      (BaseModel.argv_of BaseModel.docstring_pairs)
  ∧ ∃ ns,
      Argparse.parse_args BaseModel.example_int BaseModel.example_float
        (BaseModel.trained_parser BaseModel.example_DSET_OPTS_keys)
        (BaseModel.argv_of BaseModel.docstring_pairs)
      = Argparse.Parsed ns.
Proof.
  apply parse_args_order.
  - symmetry. apply reverse_Permutation.
  - by_evaluation.
  - intros d Hd. exact Hd.
  - apply docstring_pairs_acceptable.
Defined.

Lemma parse_args_seed_supplied_example :
  ∃ ns,
    Argparse.parse_args BaseModel.example_int BaseModel.example_float
      (BaseModel.trained_parser BaseModel.example_DSET_OPTS_keys)
      (BaseModel.argv_of (take 3 BaseModel.docstring_pairs)
       ++ "--seed" :: "10" :: BaseModel.argv_of (drop 3 BaseModel.docstring_pairs))
    = Argparse.Parsed ns
    ∧ ns !! "seed" = Some (Argparse.VInt 10)
    ∧ ns !! "batch_size" = Some (Argparse.VInt 32).
Proof.
  destruct (parse_args_seed_supplied BaseModel.example_int BaseModel.example_float
              BaseModel.example_DSET_OPTS_keys
              (take 3 BaseModel.docstring_pairs) (drop 3 BaseModel.docstring_pairs)
              "10" 10%Z)
    as (ns & Hns & Hseed & Hvalues).
  - intros d Hd. exact Hd.
  - intros d v Hin. apply docstring_pairs_acceptable. exact Hin.
  - vm_compute. reflexivity.
  - reflexivity.
  - exists ns. split; [exact Hns|]. split; [exact Hseed|].
    exact (Hvalues "batch_size" "32" eq_refl).
Defined.
